(** * AgentShell: the accessibility tree as a virtual filesystem

    A shallow embedding of the VFS mapper ([vfs_mapper.ts]), the CDP client
    ([cdp_client.ts]) and the shell kernel ([background/index.ts]), and the
    properties of naming, listing, navigation and attachment that the
    specification states about them.

    Strings are JavaScript strings restricted to code units below 256, so
    one [ascii] is one code unit.  A JS [Map] whose iteration order the code
    observes is an insertion-ordered association list; a JS [Map] or object
    used only through get/set is a [gmap].  A plain object brings what it
    inherits from [Object.prototype] with it: a lookup on an object literal
    goes through [JS.own] and then [JS.Object_prototype], an assignment
    through [JS.assign]. *)

From stdpp Require Import base option list strings gmap pretty.
From Stdlib Require Import Ascii.
From Stdlib Require String.

(** ** JavaScript string primitives *)

Module JS.

Definition code (c : ascii) : nat := nat_of_ascii c.

Definition between (lo hi : nat) (c : ascii) : bool :=
  (lo <=? code c)%nat && (code c <=? hi)%nat.

(** [String.prototype.toLowerCase] on one code unit below 256: the ASCII
    capitals and the Latin-1 capitals (U+00C0..U+00DE except the
    multiplication sign U+00D7) move up by 32. *)
Definition lowerChar (c : ascii) : ascii :=
  if between 65 90 c then ascii_of_nat (code c + 32)
  else if between 192 222 c && negb (code c =? 215)%nat
       then ascii_of_nat (code c + 32)
  else c.

Definition toLowerCase (s : string) : string :=
  String.string_of_list_ascii (map lowerChar (String.list_ascii_of_string s)).

(** The regular-expression class [\s] and the characters removed by
    [trim], below 256: TAB, LF, VT, FF, CR, space and NBSP. *)
Definition isSpace (c : ascii) : bool :=
  between 9 13 c || (code c =? 32)%nat || (code c =? 160)%nat.

Fixpoint dropSpaces (l : list ascii) : list ascii :=
  match l with
  | c :: l' => if isSpace c then dropSpaces l' else l
  | [] => []
  end.

Definition trimChars (l : list ascii) : list ascii :=
  rev (dropSpaces (rev (dropSpaces l))).

Definition trim (s : string) : string :=
  String.string_of_list_ascii (trimChars (String.list_ascii_of_string s)).

(** [s.slice(0, n)] *)
Definition slice0 (n : nat) (s : string) : string :=
  String.string_of_list_ascii (take n (String.list_ascii_of_string s)).

(** [s.includes(p)] *)
Fixpoint isPrefix (p s : list ascii) : bool :=
  match p, s with
  | [], _ => true
  | a :: p', b :: s' => if decide (a = b) then isPrefix p' s' else false
  | _ :: _, [] => false
  end.

Fixpoint includesChars (s p : list ascii) : bool :=
  isPrefix p s ||
  match s with
  | [] => false
  | _ :: s' => includesChars s' p
  end.

Definition includes (s p : string) : bool :=
  includesChars (String.list_ascii_of_string s) (String.list_ascii_of_string p).

(** [a.join(sep)] *)
Fixpoint join (sep : string) (l : list string) : string :=
  match l with
  | [] => ""
  | [x] => x
  | x :: l' => x +:+ sep +:+ join sep l'
  end.

(** [s.split("/")]: the pieces between the separators, empty ones kept;
    the accumulator holds the current piece reversed. *)
Fixpoint splitGo (sep : ascii) (acc : list ascii) (l : list ascii)
  : list string :=
  match l with
  | [] => [String.string_of_list_ascii (rev acc)]
  | c :: l' =>
      if decide (c = sep)
      then String.string_of_list_ascii (rev acc) :: splitGo sep [] l'
      else splitGo sep (c :: acc) l'
  end.

Definition split (sep : ascii) (s : string) : list string :=
  splitGo sep [] (String.list_ascii_of_string s).

(** [Boolean(s)] for a string, and [a.filter(Boolean)]. *)
Definition nonEmpty (s : string) : bool :=
  match s with EmptyString => false | String _ _ => true end.

(** [s.indexOf(c)], [None] for -1. *)
Fixpoint indexOfGo (c : ascii) (i : nat) (l : list ascii) : option nat :=
  match l with
  | [] => None
  | a :: l' => if decide (a = c) then Some i else indexOfGo c (S i) l'
  end.

Definition indexOf (c : ascii) (s : string) : option nat :=
  indexOfGo c 0 (String.list_ascii_of_string s).

(** Template-literal rendering of a non-negative integer. *)
Definition showNat (n : nat) : string := pretty n.

(** The own string-valued properties of an object literal, in the order
    written, and [o[key]] among them. *)
Definition own (o : list (string * string)) (key : string)
  : option string :=
  snd <$> List.find (λ kv, bool_decide (fst kv = key)) o.

(** The text a built-in function converts to in V8. *)
Definition nativeFunction (name : string) : string :=
  "function " +:+ name +:+ "() { [native code] }".

(** What every object literal inherits: the members of
    [Object.prototype], each with the text its value converts to when it
    is appended to a string ([__proto__] reads as [Object.prototype]
    itself).  All of them are truthy. *)
Definition Object_prototype : list (string * string) :=
  [ ("constructor", nativeFunction "Object");
    ("__defineGetter__", nativeFunction "__defineGetter__");
    ("__defineSetter__", nativeFunction "__defineSetter__");
    ("hasOwnProperty", nativeFunction "hasOwnProperty");
    ("__lookupGetter__", nativeFunction "__lookupGetter__");
    ("__lookupSetter__", nativeFunction "__lookupSetter__");
    ("isPrototypeOf", nativeFunction "isPrototypeOf");
    ("propertyIsEnumerable", nativeFunction "propertyIsEnumerable");
    ("toString", nativeFunction "toString");
    ("valueOf", nativeFunction "valueOf");
    ("__proto__", "[object Object]");
    ("toLocaleString", nativeFunction "toLocaleString") ].

(** [o[key] = value] on a plain object holding strings, [o] being its
    own properties: the property is set, except under the key
    [__proto__], whose inherited setter ignores a value that is not an
    object; the members inherited as data are shadowed like any key. *)
Definition assign (key value : string) (o : gmap string string)
  : gmap string string :=
  if decide (key = "__proto__") then o else <[key := value]> o.

End JS.

(** ** The data model ([shared/types.ts]) *)

(** An accessibility record.  The optional [{type, value}] wrappers of
    [role], [name], [description] and [value] are options of their [value]
    string; an absent [ignored] reads as [false]. *)
Record AXNode := {
  nodeId : string;
  backendDOMNodeId : option nat;
  role : option string;
  name : option string;
  description : option string;
  value : option string;
  childIds : option (list string);
  ignored : bool
}.

Record VFSNode := {
  axNodeId : string;
  vfs_backendDOMNodeId : option nat;
  vfs_name : string;
  vfs_role : string;
  vfs_value : option string;
  isDirectory : bool
}.

Definition with_name (v : VFSNode) (n : string) : VFSNode :=
  {| axNodeId := axNodeId v;
     vfs_backendDOMNodeId := vfs_backendDOMNodeId v;
     vfs_name := n;
     vfs_role := vfs_role v;
     vfs_value := vfs_value v;
     isDirectory := isDirectory v |}.

(** The first of the two declarations in [types.ts], the one the mapper
    and the kernel embedded here were written against; the second adds
    roles to it. *)
Definition CONTAINER_ROLES : list string :=
  [ "group"; "navigation"; "form"; "section"; "main"; "complementary";
    "banner"; "contentinfo"; "region"; "article"; "list"; "listitem";
    "tree"; "treeitem"; "tablist"; "tabpanel"; "dialog"; "menu"; "menubar";
    "toolbar"; "table"; "row"; "rowgroup"; "grid"; "document";
    "application"; "generic"; "WebArea"; "RootWebArea" ].

Definition INTERACTIVE_ROLES : list string :=
  [ "button"; "link"; "textbox"; "checkbox"; "radio"; "combobox"; "menuitem";
    "menuitemcheckbox"; "menuitemradio"; "option"; "switch"; "tab"; "slider";
    "spinbutton"; "searchbox" ].

Definition has (s : list string) (x : string) : bool := bool_decide (x ∈ s).

(** The node map, [Map<string, AXNode>], in insertion order. *)
Definition NodeMap := list (string * AXNode).

Fixpoint map_get (m : NodeMap) (k : string) : option AXNode :=
  match m with
  | [] => None
  | (k', n) :: m' => if decide (k' = k) then Some n else map_get m' k
  end.

(** [Map.prototype.set]: an existing key keeps its place. *)
Fixpoint map_set (m : NodeMap) (k : string) (n : AXNode) : NodeMap :=
  match m with
  | [] => [(k, n)]
  | (k', n') :: m' =>
      if decide (k' = k) then (k, n) :: m' else (k', n') :: map_set m' k n
  end.

(** ** The VFS mapper ([vfs_mapper.ts]) *)

Module Mapper.

(** The local [sanitize] of [generateNodeName]. *)
Definition keepChar (c : ascii) : bool :=
  JS.between 97 122 c || JS.between 48 57 c || JS.isSpace c
  || bool_decide (c = "_"%char) || bool_decide (c = "-"%char).

(** [.replace(/\s+/g, "_")]: every maximal run of spaces becomes one
    underscore. *)
Fixpoint collapseGo (inRun : bool) (l : list ascii) : list ascii :=
  match l with
  | [] => []
  | c :: l' =>
      if JS.isSpace c
      then (if inRun then collapseGo true l'
            else "_"%char :: collapseGo true l')
      else c :: collapseGo false l'
  end.

Definition collapseSpaces (l : list ascii) : list ascii :=
  collapseGo false l.

Definition sanitize (text : string) : string :=
  String.string_of_list_ascii
    (take 40
       (collapseSpaces
          (JS.trimChars
             (filter (λ c, keepChar c = true)
                (String.list_ascii_of_string (JS.toLowerCase text)))))).

(** The object literal [roleSuffix]. *)
Definition roleSuffixTable : list (string * string) :=
  [ ("button", "_btn"); ("link", "_link"); ("textbox", "_input");
    ("checkbox", "_chk"); ("radio", "_radio"); ("combobox", "_select");
    ("menuitem", "_item"); ("tab", "_tab"); ("slider", "_slider");
    ("searchbox", "_search"); ("switch", "_switch"); ("img", "_img");
    ("image", "_img"); ("heading", "_heading") ].

(** [roleSuffix[role]]: a key of the literal, or else a member the
    literal inherits from [Object.prototype], which [?? ""] lets through
    and which is then appended as text; [None] is [undefined]. *)
Definition roleSuffix (r : string) : option string :=
  match JS.own roleSuffixTable r with
  | Some suffix => Some suffix
  | None => JS.own JS.Object_prototype r
  end.

Definition generateNodeName (node : AXNode) : string :=
  let role := default "unknown" (role node) in
  let name := default "" (name node) in
  let description := default "" (description node) in
  let viaName :=
    if JS.nonEmpty name then
      let sanitized := sanitize name in
      if JS.nonEmpty sanitized
      then Some (sanitized +:+ default "" (roleSuffix role))
      else None
    else None in
  match viaName with
  | Some r => r
  | None =>
      let viaDescription :=
        if JS.nonEmpty description then
          let sanitized := sanitize description in
          if JS.nonEmpty sanitized
          then Some (sanitized +:+ default "" (roleSuffix role))
          else None
        else None in
      match viaDescription with
      | Some r => r
      | None =>
          let suffix := default "" (roleSuffix role) in
          role +:+ (if JS.nonEmpty suffix then suffix
                    else "_" +:+ nodeId node)
      end
  end.

Definition roleOf (node : AXNode) : string := default "" (role node).

Definition isContainerNode (node : AXNode) : bool :=
  let role := roleOf node in
  if has CONTAINER_ROLES role then true
  else match childIds node with
       | Some (_ :: _) => negb (has INTERACTIVE_ROLES role)
       | _ => false
       end.

Definition buildNodeMap (axNodes : list AXNode) : NodeMap :=
  foldl (λ m node, if ignored node then m else map_set m (nodeId node) node)
        [] axNodes.

Definition isRootRole (node : AXNode) : bool :=
  bool_decide (roleOf node = "RootWebArea")
  || bool_decide (roleOf node = "WebArea").

Definition findRootNode (nodeMap : NodeMap) : option AXNode :=
  match List.find isRootRole (map snd nodeMap) with
  | Some node => Some node
  | None => head (map snd nodeMap)
  end.

Definition skippedRole (r : string) : bool :=
  bool_decide (r = "none") || bool_decide (r = "Ignored").

Definition axNodeToVFSNode (node : AXNode) : option VFSNode :=
  let role := roleOf node in
  if skippedRole role then None
  else Some {| axNodeId := nodeId node;
               vfs_backendDOMNodeId := backendDOMNodeId node;
               vfs_name := generateNodeName node;
               vfs_role := role;
               vfs_value := value node;
               isDirectory := isContainerNode node |}.

(** [deduplicateName] renames the entry in place and counts its base
    name; the renamed entry and the updated counters are returned. *)
Definition deduplicateName (node : VFSNode) (seenNames : gmap string nat)
  : VFSNode * gmap string nat :=
  let baseName := vfs_name node in
  let count := default 0 (seenNames !! baseName) in
  let node' :=
    if (0 <? count)%nat
    then with_name node (baseName +:+ "_" +:+ JS.showNat (count + 1))
    else node in
  (node', <[baseName := count + 1]> seenNames).

(** The accumulators of the listing loop: [results] and [seenNames]. *)
Definition Listing : Type := list VFSNode * gmap string nat.

Definition push (acc : Listing) (vfsNode : option VFSNode) : Listing :=
  match vfsNode with
  | Some v =>
      let '(v', seen') := deduplicateName v (snd acc) in
      (fst acc ++ [v'], seen')
  | None => acc
  end.

(** One iteration of the [for (const childId of parent.childIds)] loop
    of [getChildVFSNodes]. *)
Definition listChild (nodeMap : NodeMap) (acc : Listing) (childId : string)
  : Listing :=
  match map_get nodeMap childId with
  | None => acc
  | Some child =>
      if ignored child then acc
      else
        let role := roleOf child in
        let name := default "" (name child) in
        if skippedRole role then acc
        else
          let flattened :=
            if bool_decide (role = "generic") && negb (JS.nonEmpty name)
            then match childIds child with
                 | Some [grandchildId] =>
                     match map_get nodeMap grandchildId with
                     | Some grandchild =>
                         if ignored grandchild then None
                         else Some (push acc (axNodeToVFSNode grandchild))
                     | None => None
                     end
                 | _ => None
                 end
            else None in
          match flattened with
          | Some acc' => acc'
          | None => push acc (axNodeToVFSNode child)
          end
  end.

Definition listChildIds (nodeMap : NodeMap) (ids : list string) : Listing :=
  foldl (listChild nodeMap) ([], ∅) ids.

Definition getChildVFSNodes (parentId : string) (nodeMap : NodeMap)
  : list VFSNode :=
  match map_get nodeMap parentId with
  | None => []
  | Some parent =>
      match childIds parent with
      | None => []
      | Some ids => fst (listChildIds nodeMap ids)
      end
  end.

Definition resolveNodeFromCwd (cwd : list string) (nodeMap : NodeMap)
  : option AXNode :=
  match last cwd with
  | None => None
  | Some currentId => map_get nodeMap currentId
  end.

Definition findChildByName (parentId name : string) (nodeMap : NodeMap)
  : option VFSNode :=
  List.find (λ c, bool_decide (vfs_name c = name))
            (getChildVFSNodes parentId nodeMap).

End Mapper.

(** ** The browser behind [chrome.*]

    What the extension APIs answer while one command runs.  An error is the
    message of [chrome.runtime.lastError]; [inl] carries it where the call
    has a result.  Each field stands for the CDP requests of one method of
    [CDPClient]. *)

Record Tab := {
  tab_id : option nat;
  tab_title : option string;
  tab_url : option string
}.

Record Cookie := {
  cookie_name : string;
  cookie_expirationDate : option nat
}.

Record Browser := {
  (** first element of [chrome.tabs.query({active, currentWindow})] *)
  tabs_query : option Tab;
  (** [chrome.debugger.attach] *)
  debugger_attach : nat → option string;
  (** [Accessibility.enable], [DOM.enable], [Runtime.enable] *)
  cdp_enable : string → option string;
  (** [Accessibility.getFullAXTree]; the argument is the [frameId]
      parameter, [None] for the main document *)
  cdp_getFullAXTree : option string → string + list AXNode;
  (** [Accessibility.getPartialAXTree] for a node id *)
  cdp_getPartialAXTree : string → string + list AXNode;
  (** [Page.getFrameTree]: the frame ids of the sub-frames *)
  cdp_getFrameTree : list string;
  (** [DOM.resolveNode] then [Runtime.callFunctionOn] with [this.click()] *)
  cdp_click : nat → option string;
  (** [DOM.resolveNode], the bounding box and two mouse events *)
  cdp_clickCoordinates : nat → option string;
  cdp_focus : nat → option string;
  (** the [Input.dispatchKeyEvent] pairs of [typeText] *)
  cdp_typeText : string → option string;
  cdp_textContent : nat → string + string;
  (** [Runtime.evaluate] of [window.location.href] *)
  cdp_pageUrl : string + string;
  (** [chrome.cookies.getAll] *)
  cookies_getAll : string → list Cookie
}.

(** ** Shell state ([background/index.ts]) *)

Record ShellState := {
  cwd : list string;
  cwdNames : list string;
  attachedTabId : option nat;
  env : gmap string string
}.

(** The module-level variables of the background worker: [state],
    [nodeMap], and the [attachedTabId] field of the [cdp] object. *)
Record Kernel := {
  state : ShellState;
  nodeMap : NodeMap;
  cdp_attachedTabId : option nat
}.

(** A computation of the worker either returns or throws a message; the
    mutations made before a throw stay. *)
Inductive Outcome (A : Type) : Type :=
| Ok (a : A)
| Throw (message : string).
Arguments Ok {A} a.
Arguments Throw {A} message.

Definition M (A : Type) : Type := Kernel → Outcome A * Kernel.

Definition ret {A} (a : A) : M A := λ k, (Ok a, k).

Definition bind {A B} (m : M A) (f : A → M B) : M B :=
  λ k, match m k with
       | (Ok a, k') => f a k'
       | (Throw e, k') => (Throw e, k')
       end.

Definition throw {A} (message : string) : M A := λ k, (Throw message, k).

(** [try { m } catch (err) { h err.message }] *)
Definition try_catch {A} (m : M A) (h : string → M A) : M A :=
  λ k, match m k with
       | (Ok a, k') => (Ok a, k')
       | (Throw e, k') => h e k'
       end.

Definition get : M Kernel := λ k, (Ok k, k).

Definition modify (f : Kernel → Kernel) : M unit := λ k, (Ok tt, f k).

Notation "'let*' x := m 'in' f" := (bind m (λ x, f))
  (at level 10, x name, m at level 100, f at level 200,
   format "'let*'  x  :=  m  'in' '/' f").
Notation "m >> f" := (bind m (λ _, f))
  (at level 61, left associativity).

Definition set_state (f : ShellState → ShellState) : M unit :=
  modify (λ k, {| state := f (state k); nodeMap := nodeMap k;
                  cdp_attachedTabId := cdp_attachedTabId k |}).

Definition set_nodeMap (m : NodeMap) : M unit :=
  modify (λ k, {| state := state k; nodeMap := m;
                  cdp_attachedTabId := cdp_attachedTabId k |}).

Definition set_cdp (t : option nat) : M unit :=
  modify (λ k, {| state := state k; nodeMap := nodeMap k;
                  cdp_attachedTabId := t |}).

Definition set_cwd (ids names : list string) (s : ShellState) : ShellState :=
  {| cwd := ids; cwdNames := names;
     attachedTabId := attachedTabId s; env := env s |}.

Definition set_attachedTabId (t : option nat) (s : ShellState) : ShellState :=
  {| cwd := cwd s; cwdNames := cwdNames s; attachedTabId := t; env := env s |}.

Definition set_env (e : gmap string string) (s : ShellState) : ShellState :=
  {| cwd := cwd s; cwdNames := cwdNames s;
     attachedTabId := attachedTabId s; env := e |}.

(** Truthiness of an optional number: absent and zero are falsy. *)
Definition truthy (n : option nat) : bool :=
  match n with Some (S _) => true | _ => false end.

(** ** The CDP client ([cdp_client.ts]) *)

Module CDP.

Definition detach : M unit :=
  let* k := get in
  match cdp_attachedTabId k with
  | None => ret tt
  | Some _ => set_cdp None
  end.

(** [send]: the guard on [attachedTabId], then the browser's answer. *)
Definition send {T} (answer : string + T) : M T :=
  let* k := get in
  match cdp_attachedTabId k with
  | None => throw "Not attached to any tab. Run 'attach' first."
  | Some _ =>
      match answer with
      | inl e => throw e
      | inr r => ret r
      end
  end.

Definition unit_answer (e : option string) : string + unit :=
  match e with Some msg => inl msg | None => inr tt end.

Definition attach (b : Browser) (tabId : nat) : M unit :=
  let* k := get in
  if decide (cdp_attachedTabId k = Some tabId) then ret tt
  else
    (match cdp_attachedTabId k with
     | Some _ => detach
     | None => ret tt
     end) >>
    (match debugger_attach b tabId with
     | Some e => throw e
     | None => set_cdp (Some tabId)
     end) >>
    send (unit_answer (cdp_enable b "Accessibility.enable")) >>
    send (unit_answer (cdp_enable b "DOM.enable")) >>
    send (unit_answer (cdp_enable b "Runtime.enable")).

(** One [Accessibility.getFullAXTree] request without parameters; its
    [nodes] are returned as they come. *)
Definition getFullAXTree (b : Browser) : M (list AXNode) :=
  send (cdp_getFullAXTree b None).

(** [getPartialAXTree]; the fallback refetches the full tree. *)
Definition getPartialAXTree (b : Browser) (nodeId : string)
  : M (list AXNode) :=
  try_catch (send (cdp_getPartialAXTree b nodeId))
            (λ _, getFullAXTree b).

Definition clickByBackendNodeId (b : Browser) (id : nat) : M unit :=
  send (unit_answer (cdp_click b id)).

Definition clickByCoordinates (b : Browser) (id : nat) : M unit :=
  send (unit_answer (cdp_clickCoordinates b id)).

Definition typeText (b : Browser) (text : string) : M unit :=
  match text with
  | EmptyString => ret tt
  | String _ _ => send (unit_answer (cdp_typeText b text))
  end.

Definition focusByBackendNodeId (b : Browser) (id : nat) : M unit :=
  send (unit_answer (cdp_focus b id)).

Definition getTextContent (b : Browser) (id : nat) : M string :=
  send (cdp_textContent b id).

Definition getPageUrl (b : Browser) : M string :=
  send (cdp_pageUrl b).

End CDP.

(** ** The shell kernel ([background/index.ts]) *)

(** One line of [tree]: the last-child flags of its ancestors (the
    prefix), its own last-child flag (the connector) and the entry. *)
Record TreeLine := {
  line_prefix : list bool;
  line_isLast : bool;
  line_entry : VFSNode
}.

(** The text a command answers with, by the source line that builds it;
    colours and layout are left to the terminal. *)
Inductive Reply :=
| Nothing                                     (* the empty string *)
| Help
| Clear
| NoActiveTab                                 (* Error: No active tab found. *)
| Attached (tab : nat) (title url : string) (nodes : nat)
| ErrorAttaching (message : string)           (* Error attaching: ... *)
| NotAttachedToAnyTab                         (* Not attached to any tab. *)
| Detached
| NotAttached                                 (* Not attached. Run 'attach' first. *)
| Refreshed (nodes : nat)
| Error (message : string)                    (* Error: ..., a caught throw *)
| CommandNotFound (cmd : string)
| EmptyDirectory
| LsOutput (longFormat : bool) (children : list VFSNode)
| CdNoSuchDirectory (part : string)           (* cd: part: No such directory *)
| CdNotADirectory (part : string)             (* cd: part: Not a directory *)
| PwdOutput (path : string)
| Usage (cmd : string)
| CatNoSuchFile (target : string)
| CatOutput (entry : VFSNode) (text : option string)
| ClickNoSuchElement (target : string)
| ClickNoBacking (target : string)
| Clicked (entry : VFSNode)
| ClickedCoords (entry : VFSNode)
| ClickFailed (message : string)
| FocusNoSuchElement (target : string)
| FocusNoBacking (target : string)
| Focused (entry : VFSNode)
| Typed (characters : nat)
| GrepNoMatches (pattern : string)
| GrepOutput (matches : list VFSNode)
| TreeOutput (rootName : string) (lines : list TreeLine)
| TreeNoDepthBound (rootName : string)
| WhoamiOutput (url : string) (session : option Cookie) (total : nat)
| EnvOutput (env : gmap string string)
| Exported (key value : string).

Definition NOT_ATTACHED_TO_A_TAB : string :=
  "Not attached to a tab. Run 'attach' first.".

Definition NO_CWD_SET : string := "No CWD set. Run 'attach' first.".

Module Shell.
Import Mapper.

Definition initial : Kernel :=
  {| state := {| cwd := []; cwdNames := ["/"]; attachedTabId := None;
                 env := <["SHELL" := "/bin/agentshell"]>
                        (<["TERM" := "xterm-256color"]>
                         (<["PS1" := "agent@shell:$PWD$ "]> ∅)) |};
     nodeMap := [];
     cdp_attachedTabId := None |}.

(** [parseCommandLine]: the loop state is [parts], [current] (reversed)
    and [inQuote]. *)
Fixpoint parseGo (parts : list string) (current : list ascii)
    (inQuote : option ascii) (input : list ascii) : list string :=
  let flush := if current is [] then parts
               else parts ++ [String.string_of_list_ascii (rev current)] in
  match input with
  | [] => flush
  | char :: rest =>
      match inQuote with
      | Some q =>
          if decide (char = q) then parseGo parts current None rest
          else parseGo parts (char :: current) inQuote rest
      | None =>
          if (JS.code char =? 34)%nat || bool_decide (char = "'"%char)
          then parseGo parts current (Some char) rest
          else if bool_decide (char = " "%char)
                  || bool_decide (char = "009"%char)
          then parseGo flush [] None rest
          else parseGo parts (char :: current) None rest
      end
  end.

Definition parseCommandLine (input : string) : list string :=
  parseGo [] [] None (String.list_ascii_of_string input).

(** Reset to root: the block shared by [handleAttach], [handleRefresh]
    and [cd /]. *)
Definition resetToRoot : M unit :=
  let* k := get in
  match findRootNode (nodeMap k) with
  | Some root => set_state (set_cwd [nodeId root] ["/"])
  | None => ret tt
  end.

Definition handleAttach (b : Browser) : M Reply :=
  match tabs_query b with
  | Some tab =>
      match tab_id tab with
      | Some (S _ as id) =>
          try_catch
            (CDP.attach b id >>
             set_state (set_attachedTabId (Some id)) >>
             let* axNodes := CDP.getFullAXTree b in
             set_nodeMap (buildNodeMap axNodes) >>
             resetToRoot >>
             let* k := get in
             ret (Attached id (default "unknown" (tab_title tab))
                           (default "unknown" (tab_url tab))
                           (length (nodeMap k))))
            (λ message, ret (ErrorAttaching message))
      | _ => ret NoActiveTab
      end
  | None => ret NoActiveTab
  end.

Definition handleDetach : M Reply :=
  let* k := get in
  if negb (truthy (attachedTabId (state k))) then ret NotAttachedToAnyTab
  else
    CDP.detach >>
    set_state (set_attachedTabId None) >>
    set_state (set_cwd [] ["/"]) >>
    set_nodeMap [] >>
    ret Detached.

Definition handleRefresh (b : Browser) : M Reply :=
  let* k := get in
  if negb (truthy (attachedTabId (state k))) then ret NotAttached
  else
    let* axNodes := CDP.getFullAXTree b in
    set_nodeMap (buildNodeMap axNodes) >>
    resetToRoot >>
    let* k := get in
    ret (Refreshed (length (nodeMap k))).

Definition ensureAttached : M unit :=
  let* k := get in
  if negb (truthy (attachedTabId (state k)))
     || bool_decide (length (nodeMap k) = 0)
  then throw NOT_ATTACHED_TO_A_TAB
  else ret tt.

Definition getCurrentNodeId : M string :=
  let* k := get in
  match last (cwd (state k)) with
  | None => throw NO_CWD_SET
  | Some id => ret id
  end.

Definition handleLs (args : list string) : M Reply :=
  ensureAttached >>
  let longFormat := has args "-l" || has args "--long" in
  let* currentId := getCurrentNodeId in
  let* k := get in
  let children := getChildVFSNodes currentId (nodeMap k) in
  if children is [] then ret EmptyDirectory
  else ret (LsOutput longFormat children).

(** [state.cwd.pop(); state.cwdNames.pop()] under [cwd.length > 1] *)
Definition popCwd : M unit :=
  let* k := get in
  if (1 <? length (cwd (state k)))%nat
  then set_state (λ s, set_cwd (removelast (cwd s))
                               (removelast (cwdNames s)) s)
  else ret tt.

Definition pushCwd (id name : string) : M unit :=
  set_state (λ s, set_cwd (cwd s ++ [id]) (cwdNames s ++ [name]) s).

(** The loop over [pathParts]; a reply inside the loop returns from
    [handleCd]. *)
Fixpoint cdParts (pathParts : list string) : M Reply :=
  match pathParts with
  | [] => ret Nothing
  | part :: rest =>
      if decide (part = "..") then popCwd >> cdParts rest
      else
        let* currentId := getCurrentNodeId in
        let* k := get in
        match findChildByName currentId part (nodeMap k) with
        | None => ret (CdNoSuchDirectory part)
        | Some match_ =>
            if negb (isDirectory match_) then ret (CdNotADirectory part)
            else pushCwd (axNodeId match_) (vfs_name match_) >>
                 cdParts rest
        end
  end.

Definition pathPartsOf (target : string) : list string :=
  filter (λ s, JS.nonEmpty s = true) (JS.split "/" target).

Definition handleCd (args : list string) : M Reply :=
  ensureAttached >>
  match args with
  | [] => resetToRoot >> ret Nothing
  | target :: _ =>
      if decide (target = "/") then resetToRoot >> ret Nothing
      else if decide (target = "..") then popCwd >> ret Nothing
      else cdParts (pathPartsOf target)
  end.

Definition handlePwd : M Reply :=
  let* k := get in
  let names := cwdNames (state k) in
  if (length names <=? 1)%nat then ret (PwdOutput "/")
  else ret (PwdOutput ("/" +:+ JS.join "/" (drop 1 names))).

Definition handleCat (b : Browser) (args : list string) : M Reply :=
  ensureAttached >>
  match args with
  | [] => ret (Usage "cat")
  | targetName :: _ =>
      let* currentId := getCurrentNodeId in
      let* k := get in
      match findChildByName currentId targetName (nodeMap k) with
      | None => ret (CatNoSuchFile targetName)
      | Some match_ =>
          match vfs_backendDOMNodeId match_ with
          | Some (S _ as id) =>
              try_catch
                (let* text := CDP.getTextContent b id in
                 ret (CatOutput match_ (Some text)))
                (λ _, ret (CatOutput match_ None))
          | _ => ret (CatOutput match_ None)
          end
      end
  end.

Definition handleClick (b : Browser) (args : list string) : M Reply :=
  ensureAttached >>
  match args with
  | [] => ret (Usage "click")
  | targetName :: _ =>
      let* currentId := getCurrentNodeId in
      let* k := get in
      match findChildByName currentId targetName (nodeMap k) with
      | None => ret (ClickNoSuchElement targetName)
      | Some match_ =>
          match vfs_backendDOMNodeId match_ with
          | Some (S _ as id) =>
              try_catch
                (CDP.clickByBackendNodeId b id >> ret (Clicked match_))
                (λ _,
                  try_catch
                    (CDP.clickByCoordinates b id >>
                     ret (ClickedCoords match_))
                    (λ message, ret (ClickFailed message)))
          | _ => ret (ClickNoBacking targetName)
          end
      end
  end.

Definition handleFocus (b : Browser) (args : list string) : M Reply :=
  ensureAttached >>
  match args with
  | [] => ret (Usage "focus")
  | targetName :: _ =>
      let* currentId := getCurrentNodeId in
      let* k := get in
      match findChildByName currentId targetName (nodeMap k) with
      | None => ret (FocusNoSuchElement targetName)
      | Some match_ =>
          match vfs_backendDOMNodeId match_ with
          | Some (S _ as id) =>
              CDP.focusByBackendNodeId b id >> ret (Focused match_)
          | _ => ret (FocusNoBacking targetName)
          end
      end
  end.

Definition handleType (b : Browser) (args : list string) : M Reply :=
  ensureAttached >>
  match args with
  | [] => ret (Usage "type")
  | _ :: _ =>
      let text := JS.join " " args in
      CDP.typeText b text >> ret (Typed (String.length text))
  end.

Definition grepMatch (pattern : string) (c : VFSNode) : bool :=
  JS.includes (JS.toLowerCase (vfs_name c)) pattern
  || JS.includes (JS.toLowerCase (vfs_role c)) pattern
  || match vfs_value c with
     | Some v => JS.nonEmpty v && JS.includes (JS.toLowerCase v) pattern
     | None => false
     end.

Definition handleGrep (args : list string) : M Reply :=
  ensureAttached >>
  match args with
  | [] => ret (Usage "grep")
  | arg0 :: _ =>
      let pattern := JS.toLowerCase arg0 in
      let* currentId := getCurrentNodeId in
      let* k := get in
      let children := getChildVFSNodes currentId (nodeMap k) in
      let matches := filter (λ c, grepMatch pattern c = true) children in
      if matches is [] then ret (GrepNoMatches pattern)
      else ret (GrepOutput matches)
  end.

(** [parseInt(s, 10)]: leading white space, an optional sign, then the
    longest run of decimal digits; [None] is NaN. *)
Fixpoint digitsGo (acc : option Z) (l : list ascii) : option Z :=
  match l with
  | c :: l' =>
      if JS.between 48 57 c
      then digitsGo (Some (10 * default 0%Z acc + Z.of_nat (JS.code c - 48))%Z) l'
      else acc
  | [] => acc
  end.

Definition parseInt (s : string) : option Z :=
  match JS.dropSpaces (String.list_ascii_of_string s) with
  | c :: l' =>
      if bool_decide (c = "-"%char) then Z.opp <$> digitsGo None l'
      else if bool_decide (c = "+"%char) then digitsGo None l'
      else digitsGo None (c :: l')
  | [] => None
  end.

(** [buildTreeLines] while [depth < maxDepth]: [remaining] is
    [maxDepth - depth]. *)
Fixpoint buildTreeLines (nodeMap : NodeMap) (remaining : nat)
    (parentId : string) (prefix : list bool) : list TreeLine :=
  match remaining with
  | 0 => []
  | S remaining' =>
      let children := getChildVFSNodes parentId nodeMap in
      mjoin (imap (λ i child,
        let isLast := bool_decide (i = length children - 1) in
        {| line_prefix := prefix; line_isLast := isLast;
           line_entry := child |} ::
        (if isDirectory child
         then buildTreeLines nodeMap remaining' (axNodeId child)
                             (prefix ++ [isLast])
         else [])) children)
  end.

Definition handleTree (args : list string) : M Reply :=
  ensureAttached >>
  let maxDepth := match args with
                  | arg0 :: _ => if JS.nonEmpty arg0 then parseInt arg0
                                 else Some 2%Z
                  | [] => Some 2%Z
                  end in
  let* currentId := getCurrentNodeId in
  let* k := get in
  let rootName := match map_get (nodeMap k) currentId with
                  | Some currentNode => generateNodeName currentNode
                  | None => "/"
                  end in
  match maxDepth with
  | Some d => ret (TreeOutput rootName
                     (buildTreeLines (nodeMap k) (Z.to_nat d) currentId []))
  | None => ret (TreeNoDepthBound rootName)
  end.

Definition isSessionCookie (c : Cookie) : bool :=
  let n := JS.toLowerCase (cookie_name c) in
  JS.includes n "session" || JS.includes n "sid" || JS.includes n "auth"
  || JS.includes n "token" || JS.includes n "jwt" || JS.includes n "user".

Definition handleWhoami (b : Browser) : M Reply :=
  let* k := get in
  if negb (truthy (attachedTabId (state k))) then ret NotAttached
  else
    try_catch
      (let* url := CDP.getPageUrl b in
       let cookies := cookies_getAll b url in
       ret (WhoamiOutput url (List.find isSessionCookie cookies)
                         (length cookies)))
      (λ message, ret (Error message)).

Definition handleEnv : M Reply :=
  let* k := get in ret (EnvOutput (env (state k))).

Definition handleExport (args : list string) : M Reply :=
  match args with
  | [] => ret (Usage "export")
  | _ :: _ =>
      let joined := JS.join " " args in
      match JS.indexOf "="%char joined with
      | None => ret (Usage "export")
      | Some eqIndex =>
          let chars := String.list_ascii_of_string joined in
          let key :=
            String.string_of_list_ascii (JS.trimChars (take eqIndex chars)) in
          let value :=
            String.string_of_list_ascii
              (JS.trimChars (drop (eqIndex + 1) chars)) in
          set_state (λ s, set_env (JS.assign key value (env s)) s) >>
          ret (Exported key value)
      end
  end.

(** The [switch] of [executeCommand]. *)
Definition dispatch (b : Browser) (cmd : string) (args : list string)
  : M Reply :=
  if decide (cmd = "help") then ret Help
  else if decide (cmd = "attach") then handleAttach b
  else if decide (cmd = "detach") then handleDetach
  else if decide (cmd = "ls") then handleLs args
  else if decide (cmd = "cd") then handleCd args
  else if decide (cmd = "pwd") then handlePwd
  else if decide (cmd = "cat") then handleCat b args
  else if decide (cmd = "click") then handleClick b args
  else if decide (cmd = "type") then handleType b args
  else if decide (cmd = "focus") then handleFocus b args
  else if decide (cmd = "grep") then handleGrep args
  else if decide (cmd = "whoami") then handleWhoami b
  else if decide (cmd = "env") then handleEnv
  else if decide (cmd = "export") then handleExport args
  else if decide (cmd = "tree") then handleTree args
  else if decide (cmd = "refresh") then handleRefresh b
  else if decide (cmd = "clear") then ret Clear
  else ret (CommandNotFound cmd).

(** [executeCommand]; a [Throw] here is the rejected promise of the
    [TypeError] raised outside the [try] when no part was parsed. *)
Definition executeCommand (b : Browser) (raw : string) : M Reply :=
  let trimmed := JS.trim raw in
  if negb (JS.nonEmpty trimmed) then ret Nothing
  else
    match parseCommandLine trimmed with
    | [] => throw "TypeError"
    | part0 :: args =>
        let cmd := JS.toLowerCase part0 in
        try_catch (dispatch b cmd args) (λ message, ret (Error message))
    end.

End Shell.

(** ** Derived views of a listing, used to state the properties *)

Module View.
Import Mapper.

(** The entry one iteration of the listing loop hands to
    [deduplicateName], if it hands one: the child's own entry, or the
    grandchild's for a flattened wrapper. *)
Definition listedEntry (nodeMap : NodeMap) (childId : string)
  : option VFSNode :=
  match map_get nodeMap childId with
  | None => None
  | Some child =>
      if ignored child then None
      else if skippedRole (roleOf child) then None
      else
        if bool_decide (roleOf child = "generic")
           && negb (JS.nonEmpty (default "" (name child)))
        then match childIds child with
             | Some [grandchildId] =>
                 match map_get nodeMap grandchildId with
                 | Some grandchild =>
                     if ignored grandchild then axNodeToVFSNode child
                     else axNodeToVFSNode grandchild
                 | None => axNodeToVFSNode child
                 end
             | _ => axNodeToVFSNode child
             end
        else axNodeToVFSNode child
  end.

(** The listing before disambiguation: the same traversal with the
    generated names left as they are. *)
Definition baseEntries (parentId : string) (nodeMap : NodeMap)
  : list VFSNode :=
  match map_get nodeMap parentId with
  | None => []
  | Some parent =>
      match childIds parent with
      | None => []
      | Some ids => omap (listedEntry nodeMap) ids
      end
  end.

(** How many of the entries [l] carry the base name [b]. *)
Definition countBase (b : string) (l : list VFSNode) : nat :=
  length (filter (λ v, vfs_name v = b) l).

(** The name of the occurrence that has [j] earlier ones. *)
Definition occurrence (v : VFSNode) (j : nat) : VFSNode :=
  match j with
  | 0 => v
  | S _ => with_name v (vfs_name v +:+ "_" +:+ JS.showNat (j + 1))
  end.

(** An entry with its name blanked: what disambiguation cannot change. *)
Definition unnamed (v : VFSNode) : VFSNode := with_name v "".

(** A flattenable wrapper, by the test of the listing loop. *)
Definition isWrapper (n : AXNode) : Prop :=
  roleOf n = "generic" ∧ default "" (name n) = ""
  ∧ ∃ grandchildId, childIds n = Some [grandchildId].

(** [generateName] as the specification words it: the base is the
    sanitized name, else the sanitized description, else the bare role;
    the role's suffix from the fixed table follows, none for a role the
    table does not map; the raw id is appended only to an empty base. *)
Definition spec_generateName (node : AXNode) : string :=
  let role := default "unknown" (role node) in
  let fromName := sanitize (default "" (name node)) in
  let fromDescription := sanitize (default "" (description node)) in
  let base := if JS.nonEmpty fromName then fromName
              else if JS.nonEmpty fromDescription then fromDescription
              else role in
  base +:+ default "" (JS.own roleSuffixTable role)
       +:+ (if JS.nonEmpty base then "" else nodeId node).

End View.

(** ** Navigation and sessions, as relations on the kernel state *)

Module Session.
Import Mapper Shell.

(** The kernel with its working directory replaced. *)
Definition at_cwd (k : Kernel) (p : list string * list string) : Kernel :=
  {| state := set_cwd (fst p) (snd p) (state k);
     nodeMap := nodeMap k;
     cdp_attachedTabId := cdp_attachedTabId k |}.

(** The working directory after [..]: both sequences lose their last
    element when the id sequence has more than one. *)
Definition popped (p : list string * list string)
  : list string * list string :=
  if (1 <? length (fst p))%nat
  then (removelast (fst p), removelast (snd p)) else p.

(** [walk m p parts p']: every segment of [parts] resolves in turn, from
    the working directory [p] (ids, names) to [p']: a segment is [..],
    or names a directory among the listed children of the current
    node. *)
Inductive walk (m : NodeMap)
  : list string * list string → list string
    → list string * list string → Prop :=
| walk_done p : walk m p [] p
| walk_up p rest p' :
    walk m (popped p) rest p' → walk m p (".." :: rest) p'
| walk_down p part rest current v p' :
    part ≠ ".." →
    last (fst p) = Some current →
    findChildByName current part m = Some v →
    isDirectory v = true →
    walk m (fst p ++ [axNodeId v], snd p ++ [vfs_name v]) rest p' →
    walk m p (part :: rest) p'.

(** The shape the two sequences keep: both of one length, or the id
    sequence empty beside the lone root name. *)
Definition cwd_shape (s : ShellState) : Prop :=
  (cwd s = [] ∧ cwdNames s = ["/"])
  ∨ (cwd s ≠ [] ∧ length (cwd s) = length (cwdNames s)).

(** What every state of a session satisfies: the shape, and a working
    directory whenever a tree is loaded. *)
Definition kernel_ok (k : Kernel) : Prop :=
  cwd_shape (state k) ∧ (nodeMap k ≠ [] → cwd (state k) ≠ []).

(** The kernel states a session can be in: the initial one, and the one
    left by any command line against any browser. *)
Inductive reachable : Kernel → Prop :=
| reachable_initial : reachable initial
| reachable_step b raw k :
    reachable k → reachable (snd (executeCommand b raw k)).




End Session.

(** ** The MCP server's command tiers ([mcp-server/index.ts]) *)

Module MCP.

(** The command-line flags the tiers depend on. *)
Record Flags := {
  ALLOW_WRITE : bool;
  ALLOW_SENSITIVE : bool
}.

Inductive Tier := Read | Write | Sensitive.

Definition WRITE_COMMANDS : list string := ["click"; "focus"; "type"].
Definition SENSITIVE_COMMANDS : list string := ["whoami"].

Fixpoint untilSpace (l : list ascii) : list ascii :=
  match l with
  | [] => []
  | c :: l' => if JS.isSpace c then [] else c :: untilSpace l'
  end.

(** [command.trim().split(/\s+/)[0]?.toLowerCase() ?? ""]: the trimmed
    text up to its first white space, in lower case. *)
Definition commandWord (command : string) : string :=
  JS.toLowerCase
    (String.string_of_list_ascii
       (untilSpace (JS.trimChars (String.list_ascii_of_string command)))).

Definition getCommandTier (command : string) : Tier :=
  let cmd := commandWord command in
  if has WRITE_COMMANDS cmd then Write
  else if has SENSITIVE_COMMANDS cmd then Sensitive
  else Read.

(** [isCommandAllowed(command).allowed] *)
Definition isCommandAllowed (flags : Flags) (command : string) : bool :=
  match getCommandTier command with
  | Write => ALLOW_WRITE flags
  | Sensitive => ALLOW_SENSITIVE flags
  | Read => true
  end.

End MCP.

(** ** Predicates used to state further properties *)

Module Facts.

(** The characters a sanitized text is made of: [a-z0-9_-]. *)
Definition safeChar (c : ascii) : bool :=
  JS.between 97 122 c || JS.between 48 57 c
  || bool_decide (c = "_"%char) || bool_decide (c = "-"%char).

(** A node map as [buildNodeMap] makes it: distinct keys, every node under
    its own id, none ignored. *)
Definition well_keyed (m : NodeMap) : Prop :=
  NoDup (fst <$> m)
  ∧ Forall (λ kn, fst kn = nodeId (snd kn) ∧ ignored (snd kn) = false) m.

(** A record that [buildNodeMap] keeps under the id [id]. *)
Definition keptAs (id : string) (n : AXNode) : bool :=
  negb (ignored n) && bool_decide (nodeId n = id).

(** A character that neither separates nor quotes on the command line. *)
Definition plainChar (c : ascii) : bool :=
  negb (JS.isSpace c) && negb (JS.code c =? 34)%nat
  && negb (bool_decide (c = "'"%char)).

(** A non-empty word of such characters. *)
Definition plainWord (w : string) : Prop :=
  w ≠ "" ∧ Forall (λ c, plainChar c = true) (String.list_ascii_of_string w).

(** The command word the kernel dispatches on, if the line has one. *)
Definition kernelWord (raw : string) : option string :=
  JS.toLowerCase <$> head (Shell.parseCommandLine (JS.trim raw)).

(** The command words whose handlers assign to the kernel's variables. *)
Definition mutators : list string :=
  [ "attach"; "detach"; "cd"; "export"; "refresh" ].

(** [unchanged m]: running [m] leaves the kernel's variables as they
    were, whether it returns or throws. *)
Definition unchanged {A} (m : M A) : Prop := ∀ k, snd (m k) = k.

(** The characters that open a quoted part, and those that end a part,
    in [parseCommandLine]. *)
Definition quoteChar (c : ascii) : bool :=
  (JS.code c =? 34)%nat || bool_decide (c = "'"%char).

Definition blankChar (c : ascii) : bool :=
  bool_decide (c = " "%char) || bool_decide (c = "009"%char).

(** The characters up to the first blank. *)
Fixpoint untilBlank (l : list ascii) : list ascii :=
  match l with
  | [] => []
  | c :: l' => if blankChar c then [] else c :: untilBlank l'
  end.

(** Every id on the working directory is a key of the node map, unless
    no tree is loaded; and the map is well keyed. *)
Definition resolved (k : Kernel) : Prop :=
  well_keyed (nodeMap k)
  ∧ (nodeMap k = []
     ∨ Forall (λ id, is_Some (map_get (nodeMap k) id)) (cwd (state k))).

(** [preserves m]: running [m] keeps [resolved], whether it returns or
    throws. *)
Definition preserves {A} (m : M A) : Prop :=
  ∀ k, resolved k → resolved (snd (m k)).

End Facts.

(** Sample pages. *)

Definition axNode (id role_ name_ : string) (children : list string) : AXNode :=
  {| nodeId := id; backendDOMNodeId := None; role := Some role_;
     name := if JS.nonEmpty name_ then Some name_ else None;
     description := None; value := None; childIds := Some children;
     ignored := false |}.

Definition ignoredNode (id : string) : AXNode :=
  {| nodeId := id; backendDOMNodeId := None; role := None; name := None;
     description := None; value := None; childIds := None; ignored := true |}.

Module Samples.

(** Two buttons of one name (scenario B), then a text whose own name
    spells the second button's disambiguated name. *)
Definition clashNodes : list AXNode :=
  [ axNode "1" "RootWebArea" "" ["2"; "3"; "4"];
    axNode "2" "button" "Submit" [];
    axNode "3" "button" "Submit" [];
    axNode "4" "StaticText" "submit btn 2" [] ].

(** A wrapper around a button (scenario C), a wrapper around a wrapper,
    a wrapper whose only child is an ignored node, which [buildNodeMap]
    drops, and a presentational node. *)
Definition wrapperNodes : list AXNode :=
  [ axNode "1" "RootWebArea" "" ["2"; "4"; "7"; "9"];
    axNode "2" "generic" "" ["3"];
    axNode "3" "button" "Go" [];
    axNode "4" "generic" "" ["5"];
    axNode "5" "generic" "" ["6"];
    axNode "6" "link" "Deep" [];
    axNode "7" "generic" "" ["8"];
    ignoredNode "8";
    axNode "9" "none" "Hidden" [] ].

(** A page with a [main] landmark that has no [form] (scenario D) and a
    button beside it. *)
Definition mainNodes : list AXNode :=
  [ axNode "1" "RootWebArea" "" ["2"; "3"];
    axNode "2" "main" "Main" ["4"];
    axNode "3" "button" "Submit" [];
    axNode "4" "navigation" "" [] ].

Definition tab : Tab :=
  {| tab_id := Some 7; tab_title := Some "Example"; tab_url := None |}.

(** A browser whose active tab shows [nodes] in its main document and
    [frameNodes] in one sub-frame, and answers every request. *)
Definition browser (nodes frameNodes : list AXNode) : Browser :=
  {| tabs_query := Some tab;
     debugger_attach := λ _, None;
     cdp_enable := λ _, None;
     cdp_getFullAXTree := λ frameId,
       match frameId with
       | None => inr nodes
       | Some _ => inr frameNodes
       end;
     cdp_getPartialAXTree := λ _, inr nodes;
     cdp_getFrameTree := ["F1"];
     cdp_click := λ _, None;
     cdp_clickCoordinates := λ _, None;
     cdp_focus := λ _, None;
     cdp_typeText := λ _, None;
     cdp_textContent := λ _, inr "";
     cdp_pageUrl := inr "https://example.com/";
     cookies_getAll := λ _, [] |}.

(** The kernel after the commands [cmds], from the initial state. *)
Definition after (b : Browser) (cmds : list string) : Kernel :=
  foldl (λ k raw, snd (Shell.executeCommand b raw k)) Shell.initial cmds.

End Samples.

(** * Properties *)

(** ** Strings *)

Lemma nonEmpty_false s : JS.nonEmpty s = false ↔ s = "".
Proof. destruct s; simpl; split; congruence. Qed.

Lemma nonEmpty_true s : JS.nonEmpty s = true ↔ s ≠ "".
Proof. destruct s; simpl; split; congruence. Qed.

Lemma app_not_self (b s : string) : s ≠ "" → b +:+ s ≠ b.
Proof.
  intros Hs; induction b as [|c b IH]; simpl.
  - exact Hs.
  - intros [= H]. by apply IH.
Qed.

(** ** The listing loop *)

Section Listing.
Import Mapper View.

Context (m : NodeMap).

Lemma listChild_push acc childId :
  listChild m acc childId = push acc (listedEntry m childId).
Proof.
  unfold listChild, listedEntry.
  destruct (map_get m childId) as [child|]; [|done].
  destruct (ignored child); [done|].
  destruct (skippedRole (roleOf child)); [done|].
  destruct (bool_decide (roleOf child = "generic")
            && negb (JS.nonEmpty (default "" (name child)))); [|done].
  destruct (childIds child) as [[|g [|??]]|]; try done.
  destruct (map_get m g) as [grandchild|]; [|done].
  by destruct (ignored grandchild).
Qed.

Lemma push_fst acc o : ∃ tail, fst (push acc o) = fst acc ++ tail.
Proof.
  destruct o as [v|]; simpl.
  - eexists [_]. done.
  - exists []. by rewrite app_nil_r.
Qed.

Lemma listing_extends ids acc :
  ∃ tail, fst (foldl (listChild m) acc ids) = fst acc ++ tail.
Proof.
  revert acc; induction ids as [|c ids IH]; intros acc; simpl.
  - exists []. by rewrite app_nil_r.
  - destruct (IH (listChild m acc c)) as [t1 ->].
    rewrite listChild_push. destruct (push_fst acc (listedEntry m c)) as [t2 ->].
    exists (t2 ++ t1). by rewrite app_assoc.
Qed.

(** The counter of a base name after one more entry. *)
Lemma seen_after (seen : gmap string nat) (b b' : string) :
  default 0 (<[b := default 0 (seen !! b) + 1]> seen !! b')
  = default 0 (seen !! b') + (if decide (b = b') then 1 else 0).
Proof.
  destruct (decide (b = b')) as [->|Hne].
  - by rewrite lookup_insert_eq.
  - rewrite lookup_insert_ne by done. lia.
Qed.

Lemma countBase_cons b v l :
  countBase b (v :: l)
  = (if decide (vfs_name v = b) then 1 else 0) + countBase b l.
Proof.
  unfold countBase. destruct (decide (vfs_name v = b)).
  - by rewrite filter_cons_True.
  - by rewrite filter_cons_False.
Qed.

Lemma deduplicateName_occurrence v (seen : gmap string nat) :
  fst (deduplicateName v seen) = occurrence v (default 0 (seen !! vfs_name v)).
Proof.
  unfold deduplicateName, occurrence; simpl.
  destruct (default 0 (seen !! vfs_name v)); done.
Qed.

Lemma push_Some acc v :
  push acc (Some v)
  = (fst acc ++ [occurrence v (default 0 (snd acc !! vfs_name v))],
     <[vfs_name v := default 0 (snd acc !! vfs_name v) + 1]> (snd acc)).
Proof.
  unfold push. rewrite (surjective_pairing (deduplicateName v acc.2)).
  by rewrite deduplicateName_occurrence.
Qed.

(** The loop invariant: the entry at position [i] of the traversal is
    renamed by the number of earlier entries of its base name, counted
    from the counters the loop started with. *)
Lemma listing_lookup ids : ∀ res seen i v,
  omap (listedEntry m) ids !! i = Some v →
  fst (foldl (listChild m) (res, seen) ids) !! (length res + i)
  = Some (occurrence v
            (default 0 (seen !! vfs_name v)
             + countBase (vfs_name v) (take i (omap (listedEntry m) ids)))).
Proof.
  induction ids as [|c ids IH]; intros res seen i v Hi; [done|].
  cbn [foldl]. rewrite listChild_push.
  change (omap (listedEntry m) (c :: ids))
    with (match listedEntry m c with
          | Some y => y :: omap (listedEntry m) ids
          | None => omap (listedEntry m) ids
          end) in *.
  destruct (listedEntry m c) as [x|] eqn:Hc.
  2:{ by apply IH. }
  rewrite push_Some; cbn [fst snd].
  destruct i as [|i].
  - injection Hi as ->.
    match goal with
    | |- context [foldl _ ?a ids] =>
        destruct (listing_extends ids a) as [tail ->]
    end.
    cbn [fst take]. rewrite <- app_assoc, Nat.add_0_r, lookup_app_r by lia.
    rewrite Nat.sub_diag. cbn.
    by rewrite Nat.add_0_r.
  - cbn [lookup list_lookup] in Hi.
    specialize (IH (res ++ [occurrence x (default 0 (seen !! vfs_name x))])
                   (<[vfs_name x := default 0 (seen !! vfs_name x) + 1]> seen)
                   i v Hi).
    rewrite length_app in IH; cbn [length] in IH.
    replace (length res + S i) with (length res + 1 + i) by lia.
    rewrite IH. f_equal. f_equal.
    cbn [take]. rewrite seen_after, countBase_cons. lia.
Qed.

Lemma listing_length ids : ∀ acc,
  length (fst (foldl (listChild m) acc ids))
  = length (fst acc) + length (omap (listedEntry m) ids).
Proof.
  induction ids as [|c ids IH]; intros acc; [simpl; lia|].
  cbn [foldl]. rewrite IH, listChild_push.
  change (omap (listedEntry m) (c :: ids))
    with (match listedEntry m c with
          | Some y => y :: omap (listedEntry m) ids
          | None => omap (listedEntry m) ids
          end).
  destruct (listedEntry m c); [|done].
  rewrite push_Some; cbn [fst length]. rewrite length_app; simpl. lia.
Qed.

Lemma unnamed_occurrence v j : unnamed (occurrence v j) = unnamed v.
Proof. by destruct j. Qed.

(** Names aside, the listing is the traversal's entries in order. *)
Lemma listing_unnamed ids : ∀ acc,
  unnamed <$> fst (foldl (listChild m) acc ids)
  = (unnamed <$> fst acc) ++ (unnamed <$> omap (listedEntry m) ids).
Proof.
  induction ids as [|c ids IH]; intros acc.
  - simpl. by rewrite app_nil_r.
  - cbn [foldl]. rewrite IH, listChild_push.
    change (omap (listedEntry m) (c :: ids))
      with (match listedEntry m c with
            | Some y => y :: omap (listedEntry m) ids
            | None => omap (listedEntry m) ids
            end).
    destruct (listedEntry m c); [|done].
    rewrite push_Some; cbn [fst].
    rewrite fmap_app, <- app_assoc. simpl. by rewrite unnamed_occurrence.
Qed.

Lemma listChildIds_unnamed ids :
  unnamed <$> fst (listChildIds m ids) = unnamed <$> omap (listedEntry m) ids.
Proof. unfold listChildIds. by rewrite listing_unnamed. Qed.

Lemma listChildIds_skip pre c post :
  listedEntry m c = None →
  listChildIds m (pre ++ c :: post) = listChildIds m (pre ++ post).
Proof.
  intros Hc. unfold listChildIds. rewrite !foldl_app. cbn [foldl].
  by rewrite listChild_push, Hc.
Qed.

Lemma axNodeToVFSNode_Some n v :
  axNodeToVFSNode n = Some v →
  skippedRole (roleOf n) = false ∧ axNodeId v = nodeId n
  ∧ vfs_role v = roleOf n ∧ isDirectory v = isContainerNode n
  ∧ vfs_name v = generateNodeName n.
Proof.
  unfold axNodeToVFSNode. destruct (skippedRole (roleOf n)); [done|].
  by intros [= <-].
Qed.

(** Every entry handed to [deduplicateName] is the entry of a node. *)
Lemma listedEntry_origin c v :
  listedEntry m c = Some v → ∃ node, axNodeToVFSNode node = Some v.
Proof.
  unfold listedEntry; intros H. repeat case_match; simplify_eq; eauto.
Qed.

Lemma listedEntry_role c v :
  listedEntry m c = Some v → skippedRole (vfs_role v) = false.
Proof.
  intros H. apply listedEntry_origin in H as [n Hn].
  apply axNodeToVFSNode_Some in Hn as (? & _ & -> & _). done.
Qed.

Lemma listedEntry_skipped c child :
  map_get m c = Some child → skippedRole (roleOf child) = true →
  listedEntry m c = None.
Proof.
  unfold listedEntry; intros -> Hr. rewrite Hr. by destruct (ignored child).
Qed.

(** The node listed for a wrapper: its only child when that resolves and
    is not ignored, the wrapper itself otherwise. *)
Lemma listedEntry_wrapper w wid gid :
  map_get m wid = Some w → ignored w = false →
  roleOf w = "generic" → default "" (name w) = "" →
  childIds w = Some [gid] →
  listedEntry m wid
  = axNodeToVFSNode (match map_get m gid with
                     | Some g => if ignored g then w else g
                     | None => w
                     end).
Proof.
  unfold listedEntry; intros -> -> Hr -> ->. rewrite Hr.
  assert (Hw : axNodeToVFSNode w ≠ None)
    by (unfold axNodeToVFSNode; by rewrite Hr).
  cbn. destruct (map_get m gid) as [g|]; [|done]. by destruct (ignored g).
Qed.

(** The listing around one child id: the entries of the siblings before,
    the entry listed for this child if there is one, the entries of the
    siblings after. *)
Lemma listing_around parentId parent pre c post :
  map_get m parentId = Some parent →
  childIds parent = Some (pre ++ c :: post) →
  unnamed <$> getChildVFSNodes parentId m
  = (unnamed <$> fst (listChildIds m pre))
    ++ option_list (unnamed <$> listedEntry m c)
    ++ (unnamed <$> fst (listChildIds m post)).
Proof.
  intros Hp Hids. unfold getChildVFSNodes. rewrite Hp, Hids.
  rewrite !listChildIds_unnamed, omap_app.
  change (omap (listedEntry m) (c :: post))
    with (match listedEntry m c with
          | Some y => y :: omap (listedEntry m) post
          | None => omap (listedEntry m) post
          end).
  rewrite fmap_app. by destruct (listedEntry m c).
Qed.

Lemma listing_at parentId parent pre c post e :
  map_get m parentId = Some parent →
  childIds parent = Some (pre ++ c :: post) →
  listedEntry m c = Some e →
  ∃ v, getChildVFSNodes parentId m !! length (fst (listChildIds m pre))
       = Some v
       ∧ unnamed v = unnamed e.
Proof.
  intros Hp Hids He.
  pose proof (listing_around parentId parent pre c post Hp Hids) as Hall.
  rewrite He in Hall.
  assert (Hlook : (unnamed <$> getChildVFSNodes parentId m)
                    !! length (fst (listChildIds m pre))
                  = Some (unnamed e)).
  { rewrite Hall. rewrite lookup_app_r by (by rewrite length_fmap).
    rewrite length_fmap, Nat.sub_diag. done. }
  rewrite list_lookup_fmap in Hlook.
  destruct (getChildVFSNodes parentId m !! length (fst (listChildIds m pre)))
    as [v|]; [|done].
  change (Some (unnamed v) = Some (unnamed e)) in Hlook.
  exists v. split; [done | congruence].
Qed.

End Listing.

(** ** Naming *)

Section Naming.
Import Mapper View.

Lemma sanitize_empty : sanitize "" = "".
Proof. reflexivity. Qed.

Lemma own_elem o key v : JS.own o key = Some v → (key, v) ∈ o.
Proof.
  unfold JS.own. destruct (List.find _ o) as [[k' v']|] eqn:Hf; [|done].
  intros [= <-]. apply find_some in Hf as [Hin Hk].
  apply bool_decide_eq_true_1 in Hk. cbn [fst] in Hk. subst k'.
  by apply list_elem_of_In.
Qed.

Lemma own_None o key : JS.own o key = None ↔ key ∉ (fst <$> o).
Proof.
  unfold JS.own. induction o as [|[k' v'] o IH]; cbn [List.find].
  - split; [intros _ ?%elem_of_nil | ]; done.
  - rewrite fmap_cons, not_elem_of_cons. cbn [fst].
    case_bool_decide as Hk; [split; [done | by intros [? _]]|].
    rewrite IH. split; [by intros ? | by intros [_ ?]].
Qed.

Lemma roleSuffix_nonEmpty r s : roleSuffix r = Some s → JS.nonEmpty s = true.
Proof.
  intros Hr.
  assert (Hin : (r, s) ∈ roleSuffixTable ++ JS.Object_prototype).
  { unfold roleSuffix in Hr. apply elem_of_app.
    destruct (JS.own roleSuffixTable r) as [s'|] eqn:Hown.
    - left. apply own_elem. congruence.
    - right. by apply own_elem. }
  assert (Hall : Forall (λ kv, JS.nonEmpty (snd kv) = true)
                        (roleSuffixTable ++ JS.Object_prototype))
    by (repeat constructor).
  by eapply Forall_forall in Hall; [|exact Hin].
Qed.

(** C1, as the code has it: the name is the sanitized accessible name,
    else the sanitized description, each followed by what
    [roleSuffix[role]] finds (nothing when it finds nothing); failing both
    it is the role followed by what [roleSuffix[role]] finds, and
    otherwise the role, an underscore and the node's raw id.
    [roleSuffix[role]] finds the suffix of the table for a role the table
    maps, and for any other role the text of the member of that name
    which the table object inherits, if there is one: it finds nothing
    exactly for a role that is neither a key of the table nor the name of
    an inherited member. *)
Theorem generateNodeName_cases (n : AXNode) :
  let role := default "unknown" (role n) in
  let fromName := sanitize (default "" (name n)) in
  let fromDescription := sanitize (default "" (description n)) in
  generateNodeName n =
    (if JS.nonEmpty fromName
     then fromName +:+ default "" (roleSuffix role)
     else if JS.nonEmpty fromDescription
     then fromDescription +:+ default "" (roleSuffix role)
     else match roleSuffix role with
          | Some suffix => role +:+ suffix
          | None => role +:+ "_" +:+ nodeId n
          end)
  ∧ roleSuffix role
    = match JS.own roleSuffixTable role with
      | Some suffix => Some suffix
      | None => JS.own JS.Object_prototype role
      end
  ∧ ((roleSuffix role = None)
     ↔ ((role ∉ fst <$> roleSuffixTable)
        ∧ (role ∉ fst <$> JS.Object_prototype))).
Proof.
  cbv zeta. set (r := default "unknown" (role n)). split; [|split].
  - unfold generateNodeName. cbv zeta. fold r.
    assert (Hs : ∀ t, (if JS.nonEmpty t
                       then if JS.nonEmpty (sanitize t)
                            then Some (sanitize t
                                       +:+ default "" (roleSuffix r))
                            else None
                       else None)
                      = if JS.nonEmpty (sanitize t)
                        then Some (sanitize t +:+ default "" (roleSuffix r))
                        else None).
    { intros [|??]; [by rewrite sanitize_empty | done]. }
    rewrite !Hs.
    destruct (JS.nonEmpty (sanitize (default "" (name n)))); [done|].
    destruct (JS.nonEmpty (sanitize (default "" (description n)))); [done|].
    destruct (roleSuffix r) as [s|] eqn:Hr; [|reflexivity].
    cbn [from_option id]. by rewrite (roleSuffix_nonEmpty _ _ Hr).
  - done.
  - unfold roleSuffix. rewrite <- !own_None.
    destruct (JS.own roleSuffixTable r).
    + split; [done | by intros [? _]].
    + split; [by intros ? | by intros [_ ?]].
Qed.

(** C1 as the specification words it fails on an unnamed landmark: the
    code answers [navigation_7], the specification's wording gives the
    bare role. *)
Lemma generateNodeName_appends_id_to_role :
  generateNodeName (axNode "7" "navigation" "" []) = "navigation_7"
  ∧ spec_generateName (axNode "7" "navigation" "" []) = "navigation"
  ∧ generateNodeName (axNode "7" "navigation" "" [])
    ≠ spec_generateName (axNode "7" "navigation" "" []).
Proof. split; [reflexivity|]. split; [reflexivity|]. discriminate. Qed.

(** A role that names an inherited member of the table object is no
    unmapped role to the code: the member's text is appended, after a
    name and after the bare role alike, and the id never is. *)
Lemma generateNodeName_inherited_member :
  generateNodeName (axNode "5" "constructor" "Submit" [])
  = "submitfunction Object() { [native code] }"
  ∧ generateNodeName (axNode "5" "constructor" "" [])
    = "constructorfunction Object() { [native code] }"
  ∧ generateNodeName (axNode "5" "__proto__" "" [])
    = "__proto__[object Object]".
Proof. repeat split; reflexivity. Qed.

End Naming.

(** ** Disambiguation and flattening *)

Section Siblings.
Import Mapper View.

Lemma occurrence_name v j :
  vfs_name (occurrence v j) = vfs_name v ↔ j = 0.
Proof.
  destruct j as [|j]; simpl; [done|]. split; [|done].
  intros H. by apply app_not_self in H.
Qed.

(** The listing, position by position. *)
Lemma getChildVFSNodes_lookup (m : NodeMap) (parentId : string) i v :
  baseEntries parentId m !! i = Some v →
  getChildVFSNodes parentId m !! i
  = Some (occurrence v
            (countBase (vfs_name v) (take i (baseEntries parentId m)))).
Proof.
  unfold baseEntries, getChildVFSNodes.
  destruct (map_get m parentId) as [parent|]; [|done].
  destruct (childIds parent) as [ids|]; [|done].
  intros Hi. unfold listChildIds.
  pose proof (listing_lookup m ids [] ∅ i v Hi) as H.
  rewrite lookup_empty in H. exact H.
Qed.

Lemma getChildVFSNodes_length (m : NodeMap) (parentId : string) :
  length (getChildVFSNodes parentId m) = length (baseEntries parentId m).
Proof.
  unfold baseEntries, getChildVFSNodes.
  destruct (map_get m parentId) as [parent|]; [|done].
  destruct (childIds parent) as [ids|]; [|done].
  unfold listChildIds. by rewrite listing_length.
Qed.

Lemma baseEntries_origin (m : NodeMap) (parentId : string) v :
  v ∈ baseEntries parentId m →
  ∃ node, axNodeToVFSNode node = Some v ∧ vfs_name v = generateNodeName node.
Proof.
  unfold baseEntries.
  destruct (map_get m parentId) as [parent|]; [|by intros ?%elem_of_nil].
  destruct (childIds parent) as [ids|]; [|by intros ?%elem_of_nil].
  intros (c & _ & Hc)%list_elem_of_omap.
  apply listedEntry_origin in Hc as [node Hn]. exists node.
  split; [done|]. by apply axNodeToVFSNode_Some in Hn as (_ & _ & _ & _ & ?).
Qed.

(** C2: the listing is one pass over the children in traversal order.
    The entry at position [i] comes from a node whose generated name is
    its base name; with [j] earlier siblings of the same base name it is
    listed under the bare name when [j] is 0 and under base_(j+1)
    otherwise.  So k siblings of one base name are listed as base, base_2,
    ..., base_k in order of appearance, and only the first keeps the bare
    name. *)
Theorem deduplicate_in_traversal_order
    (m : NodeMap) (parentId : string) (i : nat) (v : VFSNode) :
  baseEntries parentId m !! i = Some v →
  let j := countBase (vfs_name v) (take i (baseEntries parentId m)) in
  (∃ node, axNodeToVFSNode node = Some v
           ∧ vfs_name v = generateNodeName node)
  ∧ length (getChildVFSNodes parentId m) = length (baseEntries parentId m)
  ∧ getChildVFSNodes parentId m !! i = Some (occurrence v j)
  ∧ (vfs_name (occurrence v j) = vfs_name v ↔ j = 0).
Proof.
  intros Hi. cbv zeta. split; [|split; [|split]].
  - apply (baseEntries_origin m parentId). by eapply list_elem_of_lookup_2.
  - apply getChildVFSNodes_length.
  - by apply getChildVFSNodes_lookup.
  - apply occurrence_name.
Qed.

(** Scenario B: the second of two Submit buttons is [submit_btn_2]. *)
Lemma deduplicate_in_traversal_order_witness :
  baseEntries "1" (buildNodeMap Samples.clashNodes) !! 1
  = Some {| axNodeId := "3"; vfs_backendDOMNodeId := None;
            vfs_name := "submit_btn"; vfs_role := "button";
            vfs_value := None; isDirectory := false |}
  ∧ vfs_name <$> getChildVFSNodes "1" (buildNodeMap Samples.clashNodes) !! 1
    = Some "submit_btn_2".
Proof.
  split; [reflexivity|].
  destruct (deduplicate_in_traversal_order
              (buildNodeMap Samples.clashNodes) "1" 1 _ eq_refl)
    as (_ & _ & -> & _).
  reflexivity.
Defined.

(** All siblings of one base name: the names are base, base_2, ... in
    traversal order. *)
Lemma countBase_all b l :
  (∀ v, v ∈ l → vfs_name v = b) → countBase b l = length l.
Proof.
  induction l as [|x l IH]; intros H; [done|].
  rewrite countBase_cons, decide_True by (apply H; left).
  rewrite IH; [done|]. intros v Hv. apply H. by right.
Qed.

Lemma deduplicate_same_base (m : NodeMap) (parentId b : string) :
  (∀ v, v ∈ baseEntries parentId m → vfs_name v = b) →
  vfs_name <$> getChildVFSNodes parentId m
  = imap (λ i _, match i with
                 | 0 => b
                 | S _ => b +:+ "_" +:+ JS.showNat (i + 1)
                 end) (baseEntries parentId m).
Proof.
  intros Hall. apply list_eq; intros i.
  rewrite list_lookup_fmap, list_lookup_imap.
  destruct (baseEntries parentId m !! i) as [v|] eqn:Hi.
  - rewrite (getChildVFSNodes_lookup m parentId i v Hi).
    assert (Hb : vfs_name v = b)
      by (apply Hall; by eapply list_elem_of_lookup_2).
    rewrite countBase_all.
    2:{ intros x Hx. rewrite Hb. apply Hall.
        by apply (subseteq_take i) in Hx. }
    rewrite length_take_le by (apply lookup_lt_Some in Hi; lia).
    simpl. by destruct i; simpl; rewrite ?Hb.
  - apply lookup_ge_None in Hi.
    rewrite lookup_ge_None_2; [done|]. by rewrite getChildVFSNodes_length.
Qed.

(** C3 fails where a sibling's own name spells a disambiguated one: the
    counters are kept per base name only, so the listing of
    [Samples.clashNodes] holds [submit_btn_2] twice. *)
Theorem sibling_names_clash :
  vfs_name <$> getChildVFSNodes "1" (buildNodeMap Samples.clashNodes)
  = ["submit_btn"; "submit_btn_2"; "submit_btn_2"]
  ∧ ¬ NoDup (vfs_name <$> getChildVFSNodes "1"
                            (buildNodeMap Samples.clashNodes)).
Proof.
  assert (H : vfs_name <$> getChildVFSNodes "1"
                             (buildNodeMap Samples.clashNodes)
              = ["submit_btn"; "submit_btn_2"; "submit_btn_2"])
    by reflexivity.
  split; [exact H|]. rewrite H. intros Hnd.
  apply NoDup_cons in Hnd as [_ Hnd]. apply NoDup_cons in Hnd as [Hin _].
  apply Hin. left.
Qed.

(** C4, as the code has it: for a listed child that is an unnamed generic
    node with exactly one child id, the node shown at its position is the
    grandchild when that id resolves to a node that is not ignored, and
    the wrapper itself otherwise.  The listing is the entries of the
    preceding siblings, the shown node's own entry (none if its role is
    none or Ignored) and the entries of the following siblings; the shown
    node is listed as it is, wrapper or not, so one call removes one
    level. *)
Theorem flatten_substitutes_grandchild
    (m : NodeMap) (parentId : string) (parent : AXNode)
    (pre post : list string) (wrapperId grandchildId : string)
    (wrapper : AXNode) :
  map_get m parentId = Some parent →
  childIds parent = Some (pre ++ wrapperId :: post) →
  map_get m wrapperId = Some wrapper →
  ignored wrapper = false →
  roleOf wrapper = "generic" →
  default "" (name wrapper) = "" →
  childIds wrapper = Some [grandchildId] →
  let shown := match map_get m grandchildId with
               | Some grandchild =>
                   if ignored grandchild then wrapper else grandchild
               | None => wrapper
               end in
  unnamed <$> getChildVFSNodes parentId m
  = (unnamed <$> fst (listChildIds m pre))
    ++ option_list (unnamed <$> axNodeToVFSNode shown)
    ++ (unnamed <$> fst (listChildIds m post))
  ∧ (skippedRole (roleOf shown) = false →
     ∃ v, getChildVFSNodes parentId m !! length (fst (listChildIds m pre))
          = Some v
          ∧ axNodeId v = nodeId shown
          ∧ vfs_role v = roleOf shown
          ∧ isDirectory v = isContainerNode shown).
Proof.
  intros Hp Hids Hw Hwi Hwr Hwn Hwc shown.
  pose proof (listedEntry_wrapper m _ _ _ Hw Hwi Hwr Hwn Hwc) as He.
  fold shown in He. split.
  - rewrite <- He. by eapply listing_around.
  - intros Hrole.
    destruct (axNodeToVFSNode shown) as [e|] eqn:Hshown.
    2:{ unfold axNodeToVFSNode in Hshown. by rewrite Hrole in Hshown. }
    destruct (listing_at m parentId parent pre wrapperId post e Hp Hids He)
      as (v & Hv & Hu).
    apply axNodeToVFSNode_Some in Hshown as (_ & Hid & Hr & Hd & _).
    exists v. split; [done|]. rewrite <- Hid, <- Hr, <- Hd.
    change (axNodeId (unnamed v) = axNodeId (unnamed e)
            ∧ vfs_role (unnamed v) = vfs_role (unnamed e)
            ∧ isDirectory (unnamed v) = isDirectory (unnamed e)).
    by rewrite Hu.
Qed.

(** Scenario C: the button under the unnamed wrapper ["2"] is listed
    in the wrapper's place. *)
Lemma flatten_substitutes_grandchild_witness :
  map_get (buildNodeMap Samples.wrapperNodes) "2"
  = Some (axNode "2" "generic" "" ["3"])
  ∧ map_get (buildNodeMap Samples.wrapperNodes) "3"
    = Some (axNode "3" "button" "Go" [])
  ∧ ∃ v, getChildVFSNodes "1" (buildNodeMap Samples.wrapperNodes) !! 0
         = Some v
         ∧ axNodeId v = "3" ∧ vfs_role v = "button"
         ∧ isDirectory v = false.
Proof.
  split; [reflexivity|]. split; [reflexivity|].
  destruct (flatten_substitutes_grandchild
              (buildNodeMap Samples.wrapperNodes) "1"
              (axNode "1" "RootWebArea" "" ["2"; "4"; "7"; "9"])
              [] ["4"; "7"; "9"] "2" "3"
              (axNode "2" "generic" "" ["3"])
              eq_refl eq_refl eq_refl eq_refl eq_refl eq_refl eq_refl)
    as [_ H].
  exact (H eq_refl).
Defined.

(** A wrapper around a wrapper: the inner wrapper ["5"] is listed under
    its own name, the link below it is not reached by this call. *)
Example flatten_one_level_only :
  vfs_name <$> getChildVFSNodes "1" (buildNodeMap Samples.wrapperNodes)
  = ["go_btn"; "generic_5"; "generic_7"]
  ∧ vfs_name <$> getChildVFSNodes "5" (buildNodeMap Samples.wrapperNodes)
    = ["deep_link"].
Proof. split; reflexivity. Qed.

(** C4 as stated fails for a wrapper whose only child is an ignored node,
    dropped from the node map: node ["7"] is an unnamed generic node with
    exactly one child id, and it is listed itself. *)
Lemma wrapper_kept_when_child_unresolved :
  map_get (buildNodeMap Samples.wrapperNodes) "7"
  = Some (axNode "7" "generic" "" ["8"])
  ∧ isWrapper (axNode "7" "generic" "" ["8"])
  ∧ map_get (buildNodeMap Samples.wrapperNodes) "8" = None
  ∧ axNodeId <$> getChildVFSNodes "1" (buildNodeMap Samples.wrapperNodes)
    = ["3"; "5"; "7"]
  ∧ "7" ∈ axNodeId <$> getChildVFSNodes "1"
                          (buildNodeMap Samples.wrapperNodes).
Proof.
  split; [reflexivity|]. split.
  { split; [reflexivity|]. split; [reflexivity|]. by exists "8". }
  split; [reflexivity|].
  assert (H : axNodeId <$> getChildVFSNodes "1"
                             (buildNodeMap Samples.wrapperNodes)
              = ["3"; "5"; "7"]) by reflexivity.
  split; [exact H|]. rewrite H. set_solver.
Qed.

Lemma listing_roles (m : NodeMap) ids v :
  v ∈ fst (listChildIds m ids) → skippedRole (vfs_role v) = false.
Proof.
  intros Hv.
  assert (Hu : unnamed v ∈ unnamed <$> fst (listChildIds m ids))
    by (by apply list_elem_of_fmap_2).
  rewrite listChildIds_unnamed in Hu.
  apply list_elem_of_fmap in Hu as (v0 & Heq & Hv0).
  apply list_elem_of_omap in Hv0 as (c & _ & Hc).
  apply listedEntry_role in Hc.
  change (vfs_role v) with (vfs_role (unnamed v)). by rewrite Heq.
Qed.

Lemma skippedRole_true r :
  skippedRole r = true ↔ r = "none" ∨ r = "Ignored".
Proof.
  unfold skippedRole. rewrite orb_true_iff, !bool_decide_eq_true. done.
Qed.

Lemma skippedRole_false r :
  skippedRole r = false ↔ r ≠ "none" ∧ r ≠ "Ignored".
Proof.
  unfold skippedRole. rewrite orb_false_iff, !bool_decide_eq_false. done.
Qed.

(** C10: a child whose role is none or Ignored has no VFS entry, whatever
    its ignored flag; the listing of its parent is the listing of the
    other children as if it were not there, and no entry of a listing
    carries either role. *)
Theorem presentational_child_omitted
    (m : NodeMap) (parentId : string) (parent : AXNode)
    (pre post : list string) (childId : string) (child : AXNode) :
  map_get m parentId = Some parent →
  childIds parent = Some (pre ++ childId :: post) →
  map_get m childId = Some child →
  roleOf child = "none" ∨ roleOf child = "Ignored" →
  axNodeToVFSNode child = None
  ∧ getChildVFSNodes parentId m = fst (listChildIds m (pre ++ post))
  ∧ ∀ v, v ∈ getChildVFSNodes parentId m →
         vfs_role v ≠ "none" ∧ vfs_role v ≠ "Ignored".
Proof.
  intros Hp Hids Hc Hr. apply skippedRole_true in Hr.
  split; [|split].
  - unfold axNodeToVFSNode. by rewrite Hr.
  - unfold getChildVFSNodes. rewrite Hp, Hids.
    by rewrite (listChildIds_skip m pre childId post
                  (listedEntry_skipped m _ _ Hc Hr)).
  - intros v. unfold getChildVFSNodes. rewrite Hp, Hids.
    intros Hv. apply skippedRole_false. by eapply listing_roles.
Qed.

(** The presentational node ["9"] of [Samples.wrapperNodes], whose
    ignored flag is false, leaves no entry. *)
Lemma presentational_child_omitted_witness :
  ignored (axNode "9" "none" "Hidden" []) = false
  ∧ axNodeToVFSNode (axNode "9" "none" "Hidden" []) = None
  ∧ getChildVFSNodes "1" (buildNodeMap Samples.wrapperNodes)
    = fst (listChildIds (buildNodeMap Samples.wrapperNodes) ["2"; "4"; "7"]).
Proof.
  split; [reflexivity|].
  destruct (presentational_child_omitted
              (buildNodeMap Samples.wrapperNodes) "1"
              (axNode "1" "RootWebArea" "" ["2"; "4"; "7"; "9"])
              ["2"; "4"; "7"] [] "9" (axNode "9" "none" "Hidden" [])
              eq_refl eq_refl eq_refl (or_introl eq_refl)) as (H1 & H2 & _).
  split; [exact H1 | exact H2].
Defined.

End Siblings.

(** ** The kernel *)

Section Kernel.
Import Mapper Shell Session.

Lemma ensureAttached_ok k :
  truthy (attachedTabId (state k)) = true → nodeMap k ≠ [] →
  ensureAttached k = (Ok tt, k).
Proof.
  intros Ht Hm. unfold ensureAttached, bind, get. rewrite Ht. simpl.
  rewrite bool_decide_eq_false_2; [done|].
  by destruct (nodeMap k).
Qed.


Lemma at_cwd_same k : at_cwd k (cwd (state k), cwdNames (state k)) = k.
Proof. by destruct k as [[] ? ?]. Qed.

Lemma popCwd_at k p :
  popCwd (at_cwd k p) = (Ok tt, at_cwd k (popped p)).
Proof.
  unfold popCwd, bind, get, popped; simpl.
  destruct (1 <? length (fst p))%nat; [done|]. by destruct p.
Qed.

(** The loop follows a walk and goes on with the rest of the path from
    where the walk ends. *)
Lemma cdParts_walk k p pre p' rest :
  walk (nodeMap k) p pre p' →
  cdParts (pre ++ rest) (at_cwd k p) = cdParts rest (at_cwd k p').
Proof.
  induction 1 as [p | p pre p' _ IH
                  | p part pre current v p' Hne Hlast Hfind Hdir _ IH].
  - done.
  - cbn [app cdParts]. rewrite decide_True by done.
    unfold bind at 1. by rewrite popCwd_at.
  - cbn [app cdParts]. rewrite decide_False by done.
    unfold bind at 1, getCurrentNodeId, bind at 1, get at 1.
    cbn [at_cwd state cwd set_cwd]. rewrite Hlast.
    unfold ret at 1, bind at 1, get at 1.
    cbn [nodeMap at_cwd]. rewrite Hfind, Hdir. cbn [negb].
    unfold bind at 1, pushCwd, set_state, modify. exact IH.
Qed.

Lemma cdParts_fails k p seg rest current :
  seg ≠ ".." →
  last (fst p) = Some current →
  (∀ v, findChildByName current seg (nodeMap k) = Some v →
        isDirectory v = false) →
  cdParts (seg :: rest) (at_cwd k p)
  = (Ok (match findChildByName current seg (nodeMap k) with
         | None => CdNoSuchDirectory seg
         | Some _ => CdNotADirectory seg
         end), at_cwd k p).
Proof.
  intros Hne Hlast Hfail. cbn [cdParts]. rewrite decide_False by done.
  unfold bind at 1, getCurrentNodeId, bind at 1, get at 1.
  cbn [at_cwd state cwd set_cwd]. rewrite Hlast.
  unfold ret at 1, bind at 1, get at 1. cbn [nodeMap at_cwd].
  destruct (findChildByName current seg (nodeMap k)) as [v|] eqn:Hf; [|done].
  by rewrite (Hfail v eq_refl).
Qed.

(** When every segment resolves, [cd] ends where the walk ends. *)
Lemma cd_follows_walk k target more p :
  truthy (attachedTabId (state k)) = true →
  nodeMap k ≠ [] →
  target ≠ "/" → target ≠ ".." →
  walk (nodeMap k) (cwd (state k), cwdNames (state k)) (pathPartsOf target) p →
  handleCd (target :: more) k = (Ok Nothing, at_cwd k p).
Proof.
  intros Ht Hm Hroot Hup Hwalk.
  unfold handleCd, bind at 1. rewrite (ensureAttached_ok k Ht Hm).
  rewrite decide_False by done. rewrite decide_False by done.
  rewrite <- (at_cwd_same k) at 1.
  rewrite <- (app_nil_r (pathPartsOf target)).
  by rewrite (cdParts_walk k _ _ p [] Hwalk).
Qed.

(** C5: when the segments before [seg] of a multi-segment path resolve
    and [seg] does not name a directory among the children listed at
    that point, [cd] answers "No such directory" for [seg] if nothing is
    listed under that name and "Not a directory" if the entry is a file,
    and the working directory stays where the resolved segments led. *)
Theorem cd_keeps_resolved_segments
    (k : Kernel) (target : string) (more pre post : list string)
    (seg current : string) (p : list string * list string) :
  truthy (attachedTabId (state k)) = true →
  nodeMap k ≠ [] →
  target ≠ "/" → target ≠ ".." →
  pathPartsOf target = pre ++ seg :: post →
  walk (nodeMap k) (cwd (state k), cwdNames (state k)) pre p →
  seg ≠ ".." →
  last (fst p) = Some current →
  (∀ v, findChildByName current seg (nodeMap k) = Some v →
        isDirectory v = false) →
  handleCd (target :: more) k
  = (Ok (match findChildByName current seg (nodeMap k) with
         | None => CdNoSuchDirectory seg
         | Some _ => CdNotADirectory seg
         end), at_cwd k p).
Proof.
  intros Ht Hm Hroot Hup Hparts Hwalk Hne Hlast Hfail.
  unfold handleCd, bind at 1. rewrite (ensureAttached_ok k Ht Hm).
  rewrite decide_False by done. rewrite decide_False by done.
  rewrite Hparts. rewrite <- (at_cwd_same k) at 1.
  rewrite (cdParts_walk k _ pre p (seg :: post) Hwalk).
  by apply cdParts_fails.
Qed.

(** Scenario D: after [attach] on [Samples.mainNodes], [cd main/form]
    reports [form] missing and leaves the working directory in [main]. *)
Lemma cd_keeps_resolved_segments_witness :
  let b := Samples.browser Samples.mainNodes [] in
  let k := Samples.after b ["attach"] in
  cwdNames (state k) = ["/"]
  ∧ pathPartsOf "main/form" = ["main"; "form"]
  ∧ fst (executeCommand b "cd main/form" k) = Ok (CdNoSuchDirectory "form")
  ∧ handleCd ["main/form"] k
    = (Ok (CdNoSuchDirectory "form"), at_cwd k (["1"; "2"], ["/"; "main"]))
  ∧ fst (handlePwd (snd (handleCd ["main/form"] k))) = Ok (PwdOutput "/main").
Proof.
  intros b k.
  assert (Hcd : handleCd ["main/form"] k
                = (Ok (CdNoSuchDirectory "form"),
                   at_cwd k (["1"; "2"], ["/"; "main"]))).
  { refine (cd_keeps_resolved_segments k "main/form" [] ["main"] []
              "form" "2" (["1"; "2"], ["/"; "main"])
              eq_refl _ _ _ eq_refl _ _ eq_refl _).
    - discriminate.
    - discriminate.
    - discriminate.
    - refine (walk_down (nodeMap k) (["1"], ["/"]) "main" [] "1"
                {| axNodeId := "2"; vfs_backendDOMNodeId := None;
                   vfs_name := "main"; vfs_role := "main";
                   vfs_value := None; isDirectory := true |}
                _ _ eq_refl eq_refl eq_refl (walk_done _ _)).
      discriminate.
    - discriminate.
    - intros v Hv. vm_compute in Hv. discriminate. }
  split; [reflexivity|]. split; [reflexivity|]. split; [reflexivity|].
  split; [exact Hcd|]. rewrite Hcd. reflexivity.
Defined.








(** *** The shape of the working directory is an invariant *)

(** [keeps m]: running [m] keeps [kernel_ok], whether it returns or
    throws. *)
Definition keeps {A} (m : M A) : Prop :=
  ∀ k, kernel_ok k → kernel_ok (snd (m k)).

Lemma keeps_ret {A} (a : A) : keeps (ret a).
Proof. by intros k. Qed.

Lemma keeps_throw {A} e : keeps (@throw A e).
Proof. by intros k. Qed.

Lemma keeps_get : keeps get.
Proof. by intros k. Qed.

Lemma keeps_bind {A B} (m : M A) (f : A → M B) :
  keeps m → (∀ a, keeps (f a)) → keeps (bind m f).
Proof.
  intros Hm Hf k Hk. unfold bind. specialize (Hm k Hk).
  destruct (m k) as [[a|e] k']; [by apply Hf | done].
Qed.

(** After [get], the continuation runs in the state that was read. *)
Lemma keeps_bind_get {B} (f : Kernel → M B) :
  (∀ k, kernel_ok k → kernel_ok (snd (f k k))) → keeps (bind get f).
Proof. intros Hf k Hk. by apply Hf. Qed.

Lemma keeps_try_catch {A} (m : M A) (h : string → M A) :
  keeps m → (∀ e, keeps (h e)) → keeps (try_catch m h).
Proof.
  intros Hm Hh k Hk. unfold try_catch. specialize (Hm k Hk).
  destruct (m k) as [[a|e] k']; [done | by apply Hh].
Qed.

Lemma keeps_set_cdp t : keeps (set_cdp t).
Proof. by intros k. Qed.

Lemma keeps_set_state f :
  (∀ s, cwd_shape s → cwd_shape (f s)) →
  (∀ s, cwd s ≠ [] → cwd (f s) ≠ []) →
  keeps (set_state f).
Proof. intros Hf Hne k [Hs Hn]. split; [by apply Hf|]. intros ?. by apply Hne, Hn. Qed.

Lemma keeps_send {T} (answer : string + T) : keeps (CDP.send answer).
Proof. intros k Hk. unfold CDP.send, bind, get. by repeat case_match. Qed.

Lemma keeps_detach : keeps CDP.detach.
Proof. intros k Hk. unfold CDP.detach, bind, get. by repeat case_match. Qed.

(** Computations built from pieces that keep the invariant keep it. *)
Ltac keeps_step :=
  first
    [ apply keeps_ret | apply keeps_throw | apply keeps_get
    | apply keeps_send | apply keeps_detach | apply keeps_set_cdp
    | apply keeps_bind; [|intros ?]
    | apply keeps_try_catch; [|intros ?]
    | match goal with
      | |- keeps (match ?x with _ => _ end) => destruct x
      end ].

Lemma keeps_attach b id : keeps (CDP.attach b id).
Proof. unfold CDP.attach. repeat keeps_step. Qed.

Lemma shape_root id s : cwd_shape (set_cwd [id] ["/"] s).
Proof. right. by split. Qed.

Lemma length_removelast {A} (l : list A) :
  length (removelast l) = length l - 1.
Proof.
  induction l as [|x [|y l] IH]; [done..|].
  change (removelast (x :: y :: l)) with (x :: removelast (y :: l)).
  cbn [length] in *. lia.
Qed.

Lemma shape_pop s :
  cwd_shape s → (1 <? length (cwd s))%nat = true →
  cwd_shape (set_cwd (removelast (cwd s)) (removelast (cwdNames s)) s)
  ∧ removelast (cwd s) ≠ [].
Proof.
  intros Hs Hgt. apply Nat.ltb_lt in Hgt.
  assert (Hne : removelast (cwd s) ≠ []).
  { intros Hnil. apply (f_equal length) in Hnil.
    rewrite length_removelast in Hnil. simpl in Hnil. lia. }
  split; [|done]. destruct Hs as [[H _]|[_ Hlen]].
  - rewrite H in Hgt. simpl in Hgt. lia.
  - right; cbn [set_cwd cwd cwdNames]. split; [done|].
    rewrite !length_removelast. lia.
Qed.

Lemma shape_push id name s :
  cwd s ≠ [] → cwd_shape s →
  cwd_shape (set_cwd (cwd s ++ [id]) (cwdNames s ++ [name]) s).
Proof.
  intros Hne [[H _]|[_ Hlen]]; [done|].
  right; cbn [set_cwd cwd cwdNames]. split.
  - by destruct (cwd s).
  - rewrite !length_app. simpl. lia.
Qed.

Lemma findRootNode_None m : findRootNode m = None → m = [].
Proof.
  unfold findRootNode. destruct (List.find _ _); [done|]. by destruct m.
Qed.

Lemma keeps_resetToRoot : keeps resetToRoot.
Proof.
  unfold resetToRoot. apply keeps_bind; [apply keeps_get|]. intros k0.
  destruct (findRootNode (nodeMap k0)); [|apply keeps_ret].
  apply keeps_set_state; [intros s _; apply shape_root | done].
Qed.

(** Loading a tree: the new map, then the reset to its root. *)
Lemma keeps_load m : keeps (set_nodeMap m >> resetToRoot).
Proof.
  intros k [Hs _].
  unfold resetToRoot, set_nodeMap, set_state, modify, get, bind, ret.
  cbn [nodeMap]. destruct (findRootNode m) as [root|] eqn:Hroot.
  - split; [apply shape_root | done].
  - split; [done|]. cbn [snd nodeMap]. by rewrite (findRootNode_None m Hroot).
Qed.

Lemma keeps_ensureAttached : keeps ensureAttached.
Proof. intros k Hk. unfold ensureAttached, bind, get. by case_match. Qed.

Lemma keeps_popCwd : keeps popCwd.
Proof.
  unfold popCwd. apply keeps_bind_get. intros k [Hs Hn].
  destruct (1 <? length (cwd (state k)))%nat eqn:Hgt; [|done].
  destruct (shape_pop _ Hs Hgt). by split.
Qed.

Lemma keeps_cdParts parts : keeps (cdParts parts).
Proof.
  induction parts as [|part rest IH]; [apply keeps_ret|].
  cbn [cdParts]. case_decide.
  - apply keeps_bind; [apply keeps_popCwd | done].
  - intros k [Hs Hn]. unfold bind at 1, getCurrentNodeId, bind at 1, get at 1.
    destruct (last (cwd (state k))) as [current|] eqn:Hlast; [|done].
    unfold ret at 1, bind at 1, get at 1.
    destruct (findChildByName current part (nodeMap k)) as [v|]; [|done].
    destruct (isDirectory v); [|done]. cbn [negb].
    unfold bind at 1, pushCwd, set_state, modify. apply IH. split.
    + apply shape_push; [|done]. by destruct (cwd (state k)).
    + intros _. cbn. by destruct (cwd (state k)).
Qed.

Lemma keeps_getCurrentNodeId : keeps getCurrentNodeId.
Proof. unfold getCurrentNodeId. repeat keeps_step. Qed.

Ltac keeps_handler :=
  repeat first
    [ apply keeps_ensureAttached | apply keeps_getCurrentNodeId
    | apply keeps_popCwd | apply keeps_resetToRoot | apply keeps_cdParts
    | apply keeps_attach | apply keeps_load
    | keeps_step
    | apply keeps_set_state; [by intros ? ? | by intros ? ?] ].

Lemma keeps_handleAttach b : keeps (handleAttach b).
Proof. unfold handleAttach, CDP.getFullAXTree. keeps_handler. Qed.

Lemma keeps_handleDetach : keeps handleDetach.
Proof.
  intros k Hk. unfold handleDetach, bind at 1, get.
  destruct (negb (truthy (attachedTabId (state k)))); [done|].
  unfold CDP.detach, bind, get, set_cdp, set_state, set_nodeMap, modify, ret.
  destruct (cdp_attachedTabId k); (split; [by left | done]).
Qed.

Lemma keeps_handleRefresh b : keeps (handleRefresh b).
Proof. unfold handleRefresh, CDP.getFullAXTree. keeps_handler. Qed.

Lemma keeps_handleLs args : keeps (handleLs args).
Proof. unfold handleLs. keeps_handler. Qed.

Lemma keeps_handleCd args : keeps (handleCd args).
Proof. unfold handleCd. keeps_handler. Qed.

Lemma keeps_handlePwd : keeps handlePwd.
Proof. unfold handlePwd. keeps_handler. Qed.

Lemma keeps_handleCat b args : keeps (handleCat b args).
Proof. unfold handleCat, CDP.getTextContent. keeps_handler. Qed.

Lemma keeps_handleClick b args : keeps (handleClick b args).
Proof.
  unfold handleClick, CDP.clickByBackendNodeId, CDP.clickByCoordinates.
  keeps_handler.
Qed.

Lemma keeps_handleFocus b args : keeps (handleFocus b args).
Proof. unfold handleFocus, CDP.focusByBackendNodeId. keeps_handler. Qed.

Lemma keeps_handleType b args : keeps (handleType b args).
Proof. unfold handleType, CDP.typeText. keeps_handler. Qed.

Lemma keeps_handleGrep args : keeps (handleGrep args).
Proof. unfold handleGrep. keeps_handler. Qed.

Lemma keeps_handleTree args : keeps (handleTree args).
Proof. unfold handleTree. keeps_handler. Qed.

Lemma keeps_handleWhoami b : keeps (handleWhoami b).
Proof. unfold handleWhoami, CDP.getPageUrl. keeps_handler. Qed.

Lemma keeps_handleEnv : keeps handleEnv.
Proof. unfold handleEnv. keeps_handler. Qed.

Lemma keeps_handleExport args : keeps (handleExport args).
Proof. unfold handleExport. keeps_handler. Qed.

Lemma keeps_dispatch b cmd args : keeps (dispatch b cmd args).
Proof.
  unfold dispatch.
  repeat case_decide;
    first [ apply keeps_ret | apply keeps_handleAttach
          | apply keeps_handleDetach | apply keeps_handleRefresh
          | apply keeps_handleLs | apply keeps_handleCd
          | apply keeps_handlePwd | apply keeps_handleCat
          | apply keeps_handleClick | apply keeps_handleFocus
          | apply keeps_handleType | apply keeps_handleGrep
          | apply keeps_handleTree | apply keeps_handleWhoami
          | apply keeps_handleEnv | apply keeps_handleExport ].
Qed.

Lemma keeps_executeCommand b raw : keeps (executeCommand b raw).
Proof.
  unfold executeCommand. keeps_handler. apply keeps_dispatch.
Qed.

(** C7, as the code has it: in every state of a session, the id sequence
    and the name sequence of the working directory have the same length
    unless the id sequence is empty, as it is before the first attach
    and after detach, and then the name sequence is the lone ["/"]; with
    a tree loaded the id sequence is not empty, so the lengths agree. *)
Theorem cwd_sequences_shape (k : Kernel) :
  reachable k →
  ((cwd (state k) = [] ∧ cwdNames (state k) = ["/"])
   ∨ (cwd (state k) ≠ []
      ∧ length (cwd (state k)) = length (cwdNames (state k))))
  ∧ (nodeMap k ≠ [] →
     length (cwd (state k)) = length (cwdNames (state k))).
Proof.
  intros Hk.
  assert (Hok : kernel_ok k).
  { induction Hk as [|b raw k _ IH].
    - split; [by left | done].
    - by apply keeps_executeCommand. }
  destruct Hok as [Hs Hn]. split; [exact Hs|].
  intros Hm. destruct Hs as [[H _]|[_ H]]; [|done]. by apply Hn in Hm.
Qed.

Lemma session_reachable b cmds : reachable (Samples.after b cmds).
Proof.
  unfold Samples.after. generalize reachable_initial.
  generalize initial. induction cmds as [|raw cmds IH]; intros k Hk; [done|].
  cbn [foldl]. apply IH. by constructor.
Qed.

(** After [attach] and [cd main] on [Samples.mainNodes] both sequences
    have length two. *)
Lemma cwd_sequences_shape_witness :
  let k := Samples.after (Samples.browser Samples.mainNodes [])
                         ["attach"; "cd main"] in
  reachable k
  ∧ cwd (state k) = ["1"; "2"] ∧ cwdNames (state k) = ["/"; "main"]
  ∧ ((cwd (state k) = [] ∧ cwdNames (state k) = ["/"])
     ∨ (cwd (state k) ≠ []
        ∧ length (cwd (state k)) = length (cwdNames (state k))))
  ∧ (nodeMap k ≠ [] →
     length (cwd (state k)) = length (cwdNames (state k))).
Proof.
  intros k.
  assert (Hk : reachable k) by apply session_reachable.
  split; [exact Hk|]. split; [reflexivity|]. split; [reflexivity|].
  exact (cwd_sequences_shape k Hk).
Defined.

(** C7 as stated fails: [detach] leaves no ids beside one name, as the
    initial state has them. *)
Lemma detach_leaves_unequal_lengths :
  let k := Samples.after (Samples.browser Samples.mainNodes [])
                         ["attach"; "detach"] in
  fst (executeCommand (Samples.browser Samples.mainNodes []) "detach"
         (Samples.after (Samples.browser Samples.mainNodes []) ["attach"]))
  = Ok Detached
  ∧ cwd (state k) = [] ∧ cwdNames (state k) = ["/"]
  ∧ length (cwd (state k)) ≠ length (cwdNames (state k))
  ∧ length (cwd (state initial)) ≠ length (cwdNames (state initial)).
Proof. repeat split; try reflexivity; discriminate. Qed.

End Kernel.

(** ** What the kernel does not do *)

Section Absent.
Import Mapper Shell Session.

(** C8, as the code has it: fetching the tree is one
    [Accessibility.getFullAXTree] request for the main document of the
    attached tab.  Its answer is returned as it came, error or node list,
    with the ids as the browser gave them; without an attached tab the
    client refuses; no other answer of the browser, and so no frame, has a
    part in the result.  [getPartialAXTree] returns the answer to its own
    request and falls back to this same fetch when that request fails. *)
Theorem getFullAXTree_main_document_only (b : Browser) (k : Kernel) :
  CDP.getFullAXTree b k
  = (match cdp_attachedTabId k with
     | None => Throw "Not attached to any tab. Run 'attach' first."
     | Some _ =>
         match cdp_getFullAXTree b None with
         | inl e => Throw e
         | inr nodes => Ok nodes
         end
     end, k)
  ∧ ∀ nodeId,
      CDP.getPartialAXTree b nodeId k
      = (match cdp_attachedTabId k with
         | None => Throw "Not attached to any tab. Run 'attach' first."
         | Some _ =>
             match cdp_getPartialAXTree b nodeId with
             | inr nodes => Ok nodes
             | inl _ =>
                 match cdp_getFullAXTree b None with
                 | inl e => Throw e
                 | inr nodes => Ok nodes
                 end
             end
         end, k).
Proof.
  assert (Hfull : CDP.getFullAXTree b k
                  = (match cdp_attachedTabId k with
                     | None =>
                         Throw "Not attached to any tab. Run 'attach' first."
                     | Some _ =>
                         match cdp_getFullAXTree b None with
                         | inl e => Throw e
                         | inr nodes => Ok nodes
                         end
                     end, k)).
  { unfold CDP.getFullAXTree, CDP.send, bind, get.
    destruct (cdp_attachedTabId k); [|done].
    by destruct (cdp_getFullAXTree b None). }
  split; [exact Hfull|]. intros nodeId.
  unfold CDP.getPartialAXTree, try_catch.
  assert (Hpart : CDP.send (cdp_getPartialAXTree b nodeId) k
                  = (match cdp_attachedTabId k with
                     | None =>
                         Throw "Not attached to any tab. Run 'attach' first."
                     | Some _ =>
                         match cdp_getPartialAXTree b nodeId with
                         | inl e => Throw e
                         | inr nodes => Ok nodes
                         end
                     end, k)).
  { unfold CDP.send, bind, get.
    destruct (cdp_attachedTabId k); [|done].
    by destruct (cdp_getPartialAXTree b nodeId). }
  rewrite Hpart.
  destruct (cdp_attachedTabId k) eqn:Hk.
  - destruct (cdp_getPartialAXTree b nodeId); [|done].
    rewrite Hfull. by rewrite ?Hk.
  - rewrite Hfull. by rewrite ?Hk.
Qed.

(** C8 as the specification words it fails on a page with one
    sub-frame: the browser reports the frame [F1] and would answer a
    request for it with a button, but the tree fetched is the main
    document's node list alone, the button is in no node of the map built
    on attach, and the ids carry no prefix. *)
Lemma subframe_nodes_not_fetched :
  let frameNodes := [axNode "1" "button" "Pay" []] in
  let b := Samples.browser Samples.mainNodes frameNodes in
  let k := Samples.after b ["attach"] in
  cdp_getFrameTree b = ["F1"]
  ∧ cdp_getFullAXTree b (Some "F1") = inr frameNodes
  ∧ CDP.getFullAXTree b k = (Ok Samples.mainNodes, k)
  ∧ fst <$> nodeMap k = ["1"; "2"; "3"; "4"]
  ∧ Forall (λ n, name n ≠ Some "Pay") (snd <$> nodeMap k)
  ∧ nodeMap k
    = nodeMap (Samples.after (Samples.browser Samples.mainNodes [])
                             ["attach"]).
Proof.
  intros frameNodes b k.
  split; [reflexivity|]. split; [reflexivity|]. split; [reflexivity|].
  split; [reflexivity|]. split; [|reflexivity].
  vm_compute. repeat constructor; discriminate.
Qed.

(** C9, as the code has it: [find] is no case of the command switch.
    Whatever the state, the browser and the rest of the line, a line whose
    command word is [find], in any case of the letters, is answered with
    "command not found"; nothing is searched and the kernel stays as it
    was. *)
Theorem find_is_not_a_command (b : Browser) (raw : string) (k : Kernel) :
  Facts.kernelWord raw = Some "find" →
  executeCommand b raw k = (Ok (CommandNotFound "find"), k).
Proof.
  unfold Facts.kernelWord, executeCommand. cbv zeta.
  destruct (parseCommandLine (JS.trim raw)) as [|part0 args] eqn:Hparse;
    [done|].
  cbn [head fmap option_fmap option_map]. intros [= Hword].
  destruct (JS.nonEmpty (JS.trim raw)) eqn:Hne.
  - cbn [negb]. rewrite Hword. reflexivity.
  - destruct (JS.trim raw); [done | discriminate].
Qed.

Lemma find_is_not_a_command_witness :
  let b := Samples.browser Samples.mainNodes [] in
  let k := Samples.after b ["attach"; "cd main"] in
  executeCommand b "  FIND -name 'submit*' " k
  = (Ok (CommandNotFound "find"), k).
Proof.
  intros b k. apply find_is_not_a_command. reflexivity.
Defined.

(** C9 as the specification words it fails at the root of an attached
    page that lists [submit_btn]: [grep] finds the entry among the
    children of the working directory, while [find] answers "command not
    found" and returns no path. *)
Lemma find_submit_not_found :
  let b := Samples.browser Samples.mainNodes [] in
  let k := Samples.after b ["attach"] in
  vfs_name <$> getChildVFSNodes "1" (nodeMap k) = ["main"; "submit_btn"]
  ∧ (∃ entry, fst (executeCommand b "grep submit" k)
              = Ok (GrepOutput [entry])
              ∧ vfs_name entry = "submit_btn")
  ∧ executeCommand b "find submit" k = (Ok (CommandNotFound "find"), k).
Proof.
  intros b k. split; [reflexivity|]. split; [|reflexivity].
  eexists. split; reflexivity.
Qed.

End Absent.

(** * Further properties of the mapper *)

Section Sanitize.
Import Mapper Facts.

Lemma chars_of_chars l :
  String.list_ascii_of_string (String.string_of_list_ascii l) = l.
Proof. apply String.list_ascii_of_string_of_list_ascii. Qed.

Lemma length_of_chars l :
  String.length (String.string_of_list_ascii l) = length l.
Proof. induction l as [|c l IH]; simpl; congruence. Qed.

Lemma safe_not_space c : safeChar c = true → JS.isSpace c = false.
Proof. destruct c as [[] [] [] [] [] [] [] []]; by vm_compute. Qed.

Lemma safe_keep c : safeChar c = true → keepChar c = true.
Proof. destruct c as [[] [] [] [] [] [] [] []]; by vm_compute. Qed.

Lemma safe_lower c : safeChar c = true → JS.lowerChar c = c.
Proof. destruct c as [[] [] [] [] [] [] [] []]; by vm_compute. Qed.

Lemma keep_cases c :
  keepChar c = true → JS.isSpace c = true ∨ safeChar c = true.
Proof. destruct c as [[] [] [] [] [] [] [] []]; vm_compute; auto. Qed.

Lemma dropSpaces_suffix l : ∃ pre, l = pre ++ JS.dropSpaces l.
Proof.
  induction l as [|c l [pre IH]]; [by exists []|]. simpl.
  destruct (JS.isSpace c); [|by exists []].
  exists (c :: pre). simpl. by f_equal.
Qed.

Lemma Forall_dropSpaces (P : ascii → Prop) l :
  Forall P l → Forall P (JS.dropSpaces l).
Proof.
  intros H. destruct (dropSpaces_suffix l) as [pre Hl].
  rewrite Hl in H. by apply Forall_app in H as [_ ?].
Qed.

Lemma Forall_trimChars (P : ascii → Prop) l :
  Forall P l → Forall P (JS.trimChars l).
Proof.
  intros H. unfold JS.trimChars.
  by apply Forall_rev, Forall_dropSpaces, Forall_rev, Forall_dropSpaces.
Qed.

Lemma collapseGo_safe inRun l :
  Forall (λ c, keepChar c = true) l →
  Forall (λ c, safeChar c = true) (collapseGo inRun l).
Proof.
  intros H. revert inRun. induction H as [|c l Hc _ IH]; intros inRun; simpl.
  - constructor.
  - destruct (JS.isSpace c) eqn:Hs.
    + destruct inRun; [apply IH|]. constructor; [done | apply IH].
    + constructor; [|apply IH]. by destruct (keep_cases c Hc); [congruence|].
Qed.

Lemma sanitize_chars (text : string) :
  length (String.list_ascii_of_string (sanitize text)) ≤ 40
  ∧ Forall (λ c, safeChar c = true)
           (String.list_ascii_of_string (sanitize text)).
Proof.
  unfold sanitize. rewrite chars_of_chars. split.
  - rewrite length_take. lia.
  - apply Forall_take, collapseGo_safe, Forall_trimChars.
    apply Forall_forall. by intros c [? _]%list_elem_of_filter.
Qed.

(** X1: a sanitized text has at most 40 characters, each a lower-case
    letter, a digit, an underscore or a hyphen. *)
Theorem sanitize_safe (text : string) :
  String.length (sanitize text) ≤ 40
  ∧ Forall (λ c, safeChar c = true)
           (String.list_ascii_of_string (sanitize text)).
Proof.
  destruct (sanitize_chars text) as [Hlen Hsafe]. split; [|done].
  by rewrite <- (String.string_of_list_ascii_of_string (sanitize text)),
    length_of_chars.
Qed.

Lemma dropSpaces_id l :
  Forall (λ c, JS.isSpace c = false) l → JS.dropSpaces l = l.
Proof. intros [|c l' Hc _]; simpl; [done|]. by rewrite Hc. Qed.

Lemma collapseGo_id l :
  Forall (λ c, JS.isSpace c = false) l → collapseGo false l = l.
Proof.
  induction 1 as [|c l Hc _ IH]; simpl; [done|]. rewrite Hc. by f_equal.
Qed.

Lemma sanitize_chars_fixed l :
  length l ≤ 40 → Forall (λ c, safeChar c = true) l →
  sanitize (String.string_of_list_ascii l) = String.string_of_list_ascii l.
Proof.
  intros Hlen Hsafe. unfold sanitize, JS.toLowerCase.
  rewrite !chars_of_chars. f_equal.
  assert (Hns : Forall (λ c, JS.isSpace c = false) l)
    by (eapply Forall_impl; [done | apply safe_not_space]).
  replace (map JS.lowerChar l) with l.
  2:{ clear -Hsafe. induction Hsafe as [|c l Hc _ IH]; simpl; [done|].
      by rewrite safe_lower, <- IH. }
  replace (filter (λ c, keepChar c = true) l) with l.
  2:{ clear -Hsafe. induction Hsafe as [|c l Hc _ IH]; [done|].
      rewrite filter_cons_True by (by apply safe_keep). by f_equal. }
  unfold JS.trimChars. rewrite (dropSpaces_id l Hns).
  rewrite dropSpaces_id by (by apply Forall_rev).
  rewrite rev_involutive. unfold collapseSpaces.
  rewrite collapseGo_id by done. by apply take_ge.
Qed.

(** X2: sanitizing is idempotent: a sanitized text sanitizes to itself. *)
Theorem sanitize_idempotent (text : string) :
  sanitize (sanitize text) = sanitize text.
Proof.
  destruct (sanitize_chars text) as [Hlen Hsafe].
  rewrite <- (String.string_of_list_ascii_of_string (sanitize text)) at 1 2.
  by apply sanitize_chars_fixed.
Qed.

Lemma nonEmpty_app a b :
  JS.nonEmpty (a +:+ b) = JS.nonEmpty a || JS.nonEmpty b.
Proof. by destruct a. Qed.

(** X3: the generated name of a node is never empty, whatever its role,
    name, description and id. *)
Theorem generateNodeName_nonEmpty (node : AXNode) :
  generateNodeName node ≠ "".
Proof.
  apply nonEmpty_true. unfold generateNodeName. cbv zeta.
  repeat case_match; simplify_eq; rewrite ?nonEmpty_app;
    repeat match goal with
           | H : JS.nonEmpty _ = true |- _ => rewrite H; clear H
           end;
    cbn [JS.nonEmpty orb]; by rewrite ?orb_true_r.
Qed.

End Sanitize.

Section NodeMaps.
Import Mapper View Facts.

Lemma map_get_set m k n k' :
  map_get (map_set m k n) k' = if decide (k = k') then Some n else map_get m k'.
Proof.
  induction m as [|[k0 n0] m IH]; simpl.
  - by repeat case_decide.
  - destruct (decide (k0 = k)) as [->|Hne]; simpl.
    + by repeat case_decide.
    + rewrite IH. repeat case_decide; congruence.
Qed.

Lemma map_set_keys m k n :
  fst <$> map_set m k n
  = if bool_decide (k ∈ fst <$> m) then fst <$> m else (fst <$> m) ++ [k].
Proof.
  induction m as [|[k0 n0] m IH]; [done|].
  cbn [map_set]. destruct (decide (k0 = k)) as [->|Hne];
    rewrite !fmap_cons; cbn [fst].
  - rewrite bool_decide_eq_true_2; [done | left].
  - rewrite IH. destruct (bool_decide (k ∈ fst <$> m)) eqn:Hin.
    + apply bool_decide_eq_true in Hin.
      rewrite bool_decide_eq_true_2; [done | by right].
    + apply bool_decide_eq_false in Hin.
      rewrite bool_decide_eq_false_2; [done|].
      intros [?|?]%elem_of_cons; congruence.
Qed.

Lemma map_set_elem m k n kn :
  kn ∈ map_set m k n → kn = (k, n) ∨ kn ∈ m.
Proof.
  induction m as [|[k0 n0] m IH]; simpl.
  - intros ?%list_elem_of_singleton. by left.
  - destruct (decide (k0 = k)) as [->|Hne].
    + intros [->|?]%elem_of_cons; [by left | right; by right].
    + intros [->|H]%elem_of_cons; [right; left|].
      destruct (IH H); [by left | right; by right].
Qed.

Lemma well_keyed_set m n :
  ignored n = false → well_keyed m → well_keyed (map_set m (nodeId n) n).
Proof.
  intros Hn [Hnd Hall]. split.
  - rewrite map_set_keys. case_bool_decide as Hin; [done|].
    apply NoDup_app. split; [done|]. split; [|apply NoDup_singleton].
    intros x Hx ->%list_elem_of_singleton. done.
  - apply Forall_forall. intros kn [->|H]%map_set_elem; [done|].
    by eapply Forall_forall in Hall.
Qed.

Lemma buildNodeMap_from acc nodes :
  well_keyed acc →
  well_keyed
    (foldl (λ m node, if ignored node then m
                      else map_set m (nodeId node) node) acc nodes).
Proof.
  revert acc. induction nodes as [|n nodes IH]; intros acc Hacc; [done|].
  simpl. apply IH. destruct (ignored n) eqn:Hn; [done|].
  by apply well_keyed_set.
Qed.

(** X4: the map [buildNodeMap] builds has distinct keys, holds every node
    under its own id, and holds no ignored node. *)
Theorem buildNodeMap_well_keyed (axNodes : list AXNode) :
  well_keyed (buildNodeMap axNodes).
Proof.
  apply buildNodeMap_from. split; [apply NoDup_nil_2 | constructor].
Qed.

Lemma find_app_last {A} (p : A → bool) l x :
  List.find p (l ++ [x])
  = match List.find p l with
    | Some y => Some y
    | None => if p x then Some x else None
    end.
Proof.
  induction l as [|y l IH]; simpl; [done|]. by destruct (p y).
Qed.

Lemma buildNodeMap_lookup_from acc nodes id :
  map_get (foldl (λ m node, if ignored node then m
                            else map_set m (nodeId node) node) acc nodes) id
  = match List.find (keptAs id) (rev nodes) with
    | Some n => Some n
    | None => map_get acc id
    end.
Proof.
  revert acc. induction nodes as [|n nodes IH]; intros acc; [done|].
  simpl. rewrite IH, find_app_last.
  destruct (List.find (keptAs id) (rev nodes)); [done|].
  unfold keptAs. destruct (ignored n); simpl; [done|].
  rewrite map_get_set. by case_decide; case_bool_decide.
Qed.

(** X5: looking an id up in the built map gives the last node of the
    ingested list that has this id and is not ignored, and nothing when
    there is none: a later record replaces an earlier one of the same id,
    and an ignored record neither enters the map nor removes an entry. *)
Theorem buildNodeMap_lookup (axNodes : list AXNode) (id : string) :
  map_get (buildNodeMap axNodes) id
  = List.find (keptAs id) (rev axNodes).
Proof.
  unfold buildNodeMap. rewrite buildNodeMap_lookup_from.
  by destruct (List.find _ _).
Qed.

Lemma find_elem {A} (p : A → bool) l x :
  List.find p l = Some x → x ∈ l ∧ p x = true.
Proof.
  induction l as [|y l IH]; simpl; [done|].
  destruct (p y) eqn:Hy.
  - intros [= ->]. split; [left | done].
  - intros H. destruct (IH H). split; [by right | done].
Qed.

Lemma find_none {A} (p : A → bool) l x :
  List.find p l = None → x ∈ l → p x = false.
Proof.
  induction l as [|y l IH]; simpl; [by intros _ ?%elem_of_nil|].
  destruct (p y) eqn:Hy; [done|].
  intros H [->|?]%elem_of_cons; [done | by apply IH].
Qed.

(** X6: [findRootNode] finds no root only in an empty map; the root it
    finds is a node of the map, and it has role RootWebArea or WebArea
    whenever some node of the map has. *)
Theorem findRootNode_spec (m : NodeMap) :
  (findRootNode m = None ↔ m = [])
  ∧ ∀ root, findRootNode m = Some root →
      root ∈ snd <$> m
      ∧ ((∃ n, n ∈ snd <$> m ∧ isRootRole n = true) → isRootRole root = true).
Proof.
  unfold findRootNode. split.
  - destruct (List.find isRootRole (map snd m)) eqn:Hf.
    + split; [done|]. intros ->. done.
    + by destruct m.
  - intros root. destruct (List.find isRootRole (map snd m)) as [r|] eqn:Hf.
    + intros [= ->]. by apply find_elem in Hf as [? ?].
    + intros Hh. split.
      * destruct m as [|[k n] m]; [done|]. injection Hh as ->. left.
      * intros (n & Hn & Hr). by rewrite (find_none _ _ n Hf Hn) in Hr.
Qed.

End NodeMaps.

Section Listings.
Import Mapper View Facts.

Lemma listedEntry_source m c e :
  listedEntry m c = Some e →
  ∃ key node, map_get m key = Some node ∧ ignored node = false
              ∧ axNodeToVFSNode node = Some e.
Proof.
  unfold listedEntry. intros H.
  destruct (map_get m c) as [child|] eqn:Hc; [|done].
  destruct (ignored child) eqn:Hi; [done|].
  destruct (skippedRole (roleOf child)); [done|].
  assert (Hown : axNodeToVFSNode child = Some e →
                 ∃ key node, map_get m key = Some node ∧ ignored node = false
                             ∧ axNodeToVFSNode node = Some e)
    by (intros ?; by exists c, child).
  destruct (bool_decide (roleOf child = "generic")
            && negb (JS.nonEmpty (default "" (name child)))); [|by apply Hown].
  destruct (childIds child) as [[|g [|??]]|]; try by apply Hown.
  destruct (map_get m g) as [grandchild|] eqn:Hg; [|by apply Hown].
  destruct (ignored grandchild) eqn:Hgi; [by apply Hown|].
  by exists g, grandchild.
Qed.

Lemma listing_member m ids v :
  v ∈ fst (listChildIds m ids) →
  ∃ c e, c ∈ ids ∧ listedEntry m c = Some e ∧ unnamed v = unnamed e.
Proof.
  intros Hv.
  assert (Hu : unnamed v ∈ unnamed <$> fst (listChildIds m ids))
    by (by apply list_elem_of_fmap_2).
  rewrite listChildIds_unnamed in Hu.
  apply list_elem_of_fmap in Hu as (e & Heq & He).
  apply list_elem_of_omap in He as (c & Hc & He). by exists c, e.
Qed.

(** X7: every entry of a listing is the entry of a node that is stored in
    the node map and is not ignored, whether it is listed directly or in
    place of a flattened wrapper; it carries that node's id, role, value,
    backend reference and classification. *)
Theorem listing_entries_not_ignored
    (m : NodeMap) (parentId : string) (v : VFSNode) :
  v ∈ getChildVFSNodes parentId m →
  ∃ key node,
    map_get m key = Some node ∧ ignored node = false
    ∧ axNodeId v = nodeId node ∧ vfs_role v = roleOf node
    ∧ vfs_value v = value node
    ∧ vfs_backendDOMNodeId v = backendDOMNodeId node
    ∧ isDirectory v = isContainerNode node.
Proof.
  unfold getChildVFSNodes.
  destruct (map_get m parentId) as [parent|]; [|by intros ?%elem_of_nil].
  destruct (childIds parent) as [ids|]; [|by intros ?%elem_of_nil].
  intros (c & e & _ & He & Hu)%listing_member.
  apply listedEntry_source in He as (key & node & Hk & Hi & He).
  exists key, node. split; [done|]. split; [done|].
  unfold axNodeToVFSNode in He. destruct (skippedRole (roleOf node)); [done|].
  injection He as <-.
  change (axNodeId v) with (axNodeId (unnamed v)).
  change (vfs_role v) with (vfs_role (unnamed v)).
  change (vfs_value v) with (vfs_value (unnamed v)).
  change (vfs_backendDOMNodeId v) with (vfs_backendDOMNodeId (unnamed v)).
  change (isDirectory v) with (isDirectory (unnamed v)).
  by rewrite Hu.
Qed.

(** In [Samples.wrapperNodes] the button listed for the wrapper is node
    ["3"] of the map. *)
Lemma listing_entries_not_ignored_witness :
  ∃ key node,
    map_get (buildNodeMap Samples.wrapperNodes) key = Some node
    ∧ ignored node = false
    ∧ "3" = nodeId node ∧ "button" = roleOf node
    ∧ None = value node
    ∧ None = backendDOMNodeId node
    ∧ false = isContainerNode node.
Proof.
  apply (listing_entries_not_ignored
           (buildNodeMap Samples.wrapperNodes) "1"
           {| axNodeId := "3"; vfs_backendDOMNodeId := None;
              vfs_name := "go_btn"; vfs_role := "button";
              vfs_value := None; isDirectory := false |}).
  vm_compute. apply list_elem_of_here.
Defined.

Lemma length_omap_le {A B} (f : A → option B) l :
  length (omap f l) ≤ length l.
Proof.
  induction l as [|x l IH]; [done|].
  change (omap f (x :: l))
    with (match f x with Some y => y :: omap f l | None => omap f l end).
  destruct (f x); simpl; lia.
Qed.

(** X8: a listing has at most one entry for each child id of the parent,
    and none when the parent id is not in the map or the parent has no
    child ids. *)
Theorem listing_length_bound (m : NodeMap) (parentId : string) :
  length (getChildVFSNodes parentId m)
  ≤ length (default [] (map_get m parentId ≫= childIds)).
Proof.
  unfold getChildVFSNodes.
  destruct (map_get m parentId) as [parent|]; [|done]. simpl.
  destruct (childIds parent) as [ids|]; [|done]. simpl.
  unfold listChildIds. rewrite listing_length. simpl. apply length_omap_le.
Qed.

Lemma countBase_app b l1 l2 :
  countBase b (l1 ++ l2) = countBase b l1 + countBase b l2.
Proof. unfold countBase. by rewrite filter_app, length_app. Qed.

Lemma countBase_grows b (l : list VFSNode) i j v :
  l !! i = Some v → vfs_name v = b → i < j →
  countBase b (take i l) < countBase b (take j l).
Proof.
  intros Hi Hb Hij.
  replace j with (i + (j - i)) by lia.
  rewrite <- take_take_drop, countBase_app, (drop_S l v i Hi).
  replace (j - i) with (S (j - i - 1)) by lia.
  cbn [take]. rewrite countBase_cons, decide_True by done. lia.
Qed.

Lemma occurrence_names_differ v w i j :
  vfs_name v = vfs_name w → i < j →
  vfs_name (occurrence v i) ≠ vfs_name (occurrence w j).
Proof.
  intros Hb Hij. destruct j as [|j]; [lia|].
  destruct i as [|i]; simpl; rewrite Hb.
  - intros H. symmetry in H. by apply app_not_self in H.
  - intros H. apply (inj (String.app _)) in H.
    apply (inj (String.app _)) in H.
    apply (inj pretty) in H. lia.
Qed.

(** X9: two entries of one listing that come from the same base name are
    listed under different names. *)
Theorem same_base_names_distinct
    (m : NodeMap) (parentId : string) (i j : nat) (v w v' w' : VFSNode) :
  baseEntries parentId m !! i = Some v →
  baseEntries parentId m !! j = Some w →
  vfs_name v = vfs_name w →
  i ≠ j →
  getChildVFSNodes parentId m !! i = Some v' →
  getChildVFSNodes parentId m !! j = Some w' →
  vfs_name v' ≠ vfs_name w'.
Proof.
  intros Hi Hj Hb Hij Hi' Hj'.
  rewrite (getChildVFSNodes_lookup m parentId i v Hi) in Hi'.
  rewrite (getChildVFSNodes_lookup m parentId j w Hj) in Hj'.
  injection Hi' as <-. injection Hj' as <-. rewrite <- Hb.
  destruct (decide (i < j)).
  - apply occurrence_names_differ; [done|].
    by eapply countBase_grows.
  - intros H. symmetry in H. revert H.
    apply occurrence_names_differ; [done|].
    eapply countBase_grows; [done | done | lia].
Qed.

(** The two Submit buttons of [Samples.clashNodes]. *)
Lemma same_base_names_distinct_witness :
  vfs_name <$> baseEntries "1" (buildNodeMap Samples.clashNodes) !! 0
  = Some "submit_btn"
  ∧ vfs_name <$> baseEntries "1" (buildNodeMap Samples.clashNodes) !! 1
    = Some "submit_btn"
  ∧ "submit_btn" ≠ "submit_btn_2".
Proof.
  split; [reflexivity|]. split; [reflexivity|].
  exact (same_base_names_distinct
           (buildNodeMap Samples.clashNodes) "1" 0 1 _ _
           {| axNodeId := "2"; vfs_backendDOMNodeId := None;
              vfs_name := "submit_btn"; vfs_role := "button";
              vfs_value := None; isDirectory := false |}
           {| axNodeId := "3"; vfs_backendDOMNodeId := None;
              vfs_name := "submit_btn_2"; vfs_role := "button";
              vfs_value := None; isDirectory := false |}
           eq_refl eq_refl eq_refl (λ H, O_S 0 H) eq_refl eq_refl).
Defined.

End Listings.

(** * Further properties of the kernel *)

Section CommandLine.
Import Shell Facts.

Lemma string_nonEmpty_chars l :
  l ≠ [] → JS.nonEmpty (String.string_of_list_ascii l) = true.
Proof. by destruct l. Qed.

Lemma parseGo_nonEmpty input : ∀ parts current inQuote,
  Forall (λ s, JS.nonEmpty s = true) parts →
  Forall (λ s, JS.nonEmpty s = true) (parseGo parts current inQuote input).
Proof.
  induction input as [|char rest IH]; intros parts current inQuote Hparts.
  - simpl. destruct current as [|c cur]; [done|].
    apply Forall_app. split; [done|]. constructor; [|done].
    apply string_nonEmpty_chars. intros H. apply (f_equal length) in H.
    rewrite length_rev in H. done.
  - cbn [parseGo]. destruct inQuote as [q|].
    + case_decide; by apply IH.
    + repeat case_match; try by apply IH.
      apply IH. apply Forall_app. split; [done|]. constructor; [|done].
      apply string_nonEmpty_chars. intros Hnil.
      apply (f_equal length) in Hnil. rewrite length_rev in Hnil. done.
Qed.

(** X10: no part of a parsed command line is the empty string. *)
Theorem parseCommandLine_parts_nonEmpty (input : string) :
  Forall (λ part, part ≠ "") (parseCommandLine input).
Proof.
  eapply Forall_impl; [by apply parseGo_nonEmpty|].
  intros part. apply nonEmpty_true.
Qed.

Lemma plain_cases c :
  plainChar c = true →
  (JS.code c =? 34)%nat || bool_decide (c = "'"%char) = false
  ∧ bool_decide (c = " "%char) || bool_decide (c = "009"%char) = false
  ∧ JS.isSpace c = false.
Proof. destruct c as [[] [] [] [] [] [] [] []]; by vm_compute. Qed.

(** A run of plain characters goes into the current part. *)
Lemma parseGo_plain word : ∀ parts current rest,
  Forall (λ c, plainChar c = true) word →
  parseGo parts current None (word ++ rest)
  = parseGo parts (rev word ++ current) None rest.
Proof.
  induction word as [|c word IH]; intros parts current rest Hw; [done|].
  apply Forall_cons in Hw as [Hc Hw].
  destruct (plain_cases c Hc) as (Hq & Hb & _).
  cbn [app parseGo]. rewrite Hq, Hb, IH by done.
  cbn [rev]. by rewrite <- app_assoc.
Qed.

Lemma chars_app (a b : string) :
  String.list_ascii_of_string (a +:+ b)
  = String.list_ascii_of_string a ++ String.list_ascii_of_string b.
Proof. induction a as [|c a IH]; simpl; [done|]. by rewrite IH. Qed.

Lemma parseGo_words words : ∀ parts,
  Forall plainWord words →
  parseGo parts [] None (String.list_ascii_of_string (JS.join " " words))
  = parts ++ words.
Proof.
  induction words as [|w words IH]; intros parts Hws.
  - simpl. by rewrite app_nil_r.
  - apply Forall_cons in Hws as [[Hne Hw] Hws].
    assert (Hflush : ∀ rest,
      parseGo parts [] None (String.list_ascii_of_string w ++ rest)
      = parseGo parts (rev (String.list_ascii_of_string w)) None rest).
    { intros rest. rewrite parseGo_plain by done. by rewrite app_nil_r. }
    assert (Hcur : rev (String.list_ascii_of_string w) ≠ []).
    { intros H. apply (f_equal length) in H. rewrite length_rev in H.
      destruct w; [done | discriminate]. }
    destruct words as [|w' words].
    + cbn [JS.join].
      rewrite <- (app_nil_r (String.list_ascii_of_string w)), Hflush.
      cbn [parseGo]. destruct (rev (String.list_ascii_of_string w)) eqn:Hr;
        [done|]. rewrite <- Hr, rev_involutive.
      by rewrite String.string_of_list_ascii_of_string.
    + change (JS.join " " (w :: w' :: words))
        with (w +:+ " " +:+ JS.join " " (w' :: words)).
      rewrite !chars_app, Hflush.
      change (String.list_ascii_of_string " ") with [" "%char].
      cbn [app parseGo]. cbn [Nat.eqb JS.code]. 
      replace ((JS.code " " =? 34)%nat || bool_decide (" "%char = "'"%char))
        with false by (by vm_compute).
      replace (bool_decide (" "%char = " "%char)
               || bool_decide (" "%char = "009"%char))
        with true by (by vm_compute).
      destruct (rev (String.list_ascii_of_string w)) eqn:Hr; [done|].
      rewrite <- Hr, rev_involutive, String.string_of_list_ascii_of_string.
      rewrite IH by done. by rewrite <- app_assoc.
Qed.

(** X11: words free of white space and quotes, joined by single spaces,
    parse back into the same words. *)
Theorem parseCommandLine_join (words : list string) :
  Forall (λ w, w ≠ ""
               ∧ Forall (λ c, plainChar c = true)
                        (String.list_ascii_of_string w)) words →
  parseCommandLine (JS.join " " words) = words.
Proof. intros H. unfold parseCommandLine. by rewrite parseGo_words. Qed.

Lemma parseCommandLine_join_witness :
  parseCommandLine (JS.join " " ["cd"; "main/form"]) = ["cd"; "main/form"].
Proof.
  apply parseCommandLine_join.
  repeat constructor; by vm_compute.
Defined.

End CommandLine.

Section Navigation.
Import Mapper Shell Session Facts.

Lemma find_first {A} (p : A → bool) (l : list A) :
  match List.find p l with
  | Some x => p x = true
              ∧ ∃ i, l !! i = Some x
                     ∧ ∀ j y, j < i → l !! j = Some y → p y = false
  | None => ∀ y, y ∈ l → p y = false
  end.
Proof.
  induction l as [|a l IH]; simpl.
  - by intros y ?%elem_of_nil.
  - destruct (p a) eqn:Ha.
    + split; [done|]. exists 0. split; [done|]. intros j y Hj. lia.
    + destruct (List.find p l) as [x|].
      * destruct IH as (Hx & i & Hi & Hfirst). split; [done|].
        exists (S i). split; [done|]. intros [|j] y Hj Hy.
        -- by injection Hy as <-.
        -- apply (Hfirst j); [lia | done].
      * intros y [->|Hy]%elem_of_cons; [done | by apply IH].
Qed.

(** X12: [findChildByName] matches the display name exactly: what it
    returns is the first entry of the listing that carries this name, and
    it returns nothing only when no entry of the listing carries it. *)
Theorem findChildByName_first (m : NodeMap) (parentId name : string) :
  match findChildByName parentId name m with
  | Some v =>
      vfs_name v = name
      ∧ ∃ i, getChildVFSNodes parentId m !! i = Some v
             ∧ ∀ j w, j < i → getChildVFSNodes parentId m !! j = Some w →
                      vfs_name w ≠ name
  | None => ∀ w, w ∈ getChildVFSNodes parentId m → vfs_name w ≠ name
  end.
Proof.
  unfold findChildByName.
  pose proof (find_first (λ c, bool_decide (vfs_name c = name))
                         (getChildVFSNodes parentId m)) as H.
  destruct (List.find _ _) as [v|].
  - destruct H as (Hv & i & Hi & Hfirst).
    split; [by apply bool_decide_eq_true in Hv|].
    exists i. split; [done|]. intros j w Hj Hw.
    eapply bool_decide_eq_false_1. by apply (Hfirst j).
  - intros w Hw. eapply bool_decide_eq_false_1. by apply H.
Qed.

(** X13: in the attached state with a tree loaded, [cd /] and [cd]
    without argument set the working directory to the root of the tree
    and the names to the lone ["/"], wherever it was before. *)
Theorem cd_root_resets (k : Kernel) (more : list string) :
  truthy (attachedTabId (state k)) = true →
  nodeMap k ≠ [] →
  ∃ root, findRootNode (nodeMap k) = Some root
          ∧ handleCd ("/" :: more) k
            = (Ok Nothing, at_cwd k ([nodeId root], ["/"]))
          ∧ handleCd [] k = (Ok Nothing, at_cwd k ([nodeId root], ["/"])).
Proof.
  intros Ht Hm.
  destruct (findRootNode (nodeMap k)) as [root|] eqn:Hroot.
  2:{ by apply findRootNode_None in Hroot. }
  exists root. split; [done|].
  assert (Hreset : (resetToRoot >> ret Nothing) k
                   = (Ok Nothing, at_cwd k ([nodeId root], ["/"]))).
  { unfold resetToRoot, bind, get. by rewrite Hroot. }
  split.
  - unfold handleCd, bind at 1. rewrite (ensureAttached_ok k Ht Hm).
    by rewrite decide_True.
  - unfold handleCd, bind at 1. by rewrite (ensureAttached_ok k Ht Hm).
Qed.

Lemma cd_root_resets_witness :
  let k := Samples.after (Samples.browser Samples.mainNodes [])
                         ["attach"; "cd main"] in
  cwdNames (state k) = ["/"; "main"]
  ∧ ∃ root, findRootNode (nodeMap k) = Some root
            ∧ handleCd ["/"] k = (Ok Nothing, at_cwd k ([nodeId root], ["/"]))
            ∧ handleCd [] k = (Ok Nothing, at_cwd k ([nodeId root], ["/"])).
Proof.
  intros k. split; [reflexivity|].
  apply (cd_root_resets k []); [reflexivity | discriminate].
Defined.

Lemma handleCd_up (k : Kernel) (more : list string) :
  truthy (attachedTabId (state k)) = true →
  nodeMap k ≠ [] →
  handleCd (".." :: more) k
  = (Ok Nothing, at_cwd k (popped (cwd (state k), cwdNames (state k)))).
Proof.
  intros Ht Hm. unfold handleCd, bind at 1.
  rewrite (ensureAttached_ok k Ht Hm).
  rewrite decide_False by done. rewrite decide_True by done.
  unfold bind. rewrite <- (at_cwd_same k) at 1. by rewrite popCwd_at.
Qed.

(** X14: in the attached state, [cd ..] with at most one id on the
    working directory changes nothing, and with more it drops the last id
    and the last name. *)
Theorem cd_up_pops_one (k : Kernel) (more : list string) :
  truthy (attachedTabId (state k)) = true →
  nodeMap k ≠ [] →
  handleCd (".." :: more) k
  = (Ok Nothing,
     if (1 <? length (cwd (state k)))%nat
     then at_cwd k (removelast (cwd (state k)),
                    removelast (cwdNames (state k)))
     else k).
Proof.
  intros Ht Hm. rewrite handleCd_up by done.
  unfold popped. cbn [fst snd].
  destruct (1 <? length (cwd (state k)))%nat; [done|].
  by rewrite at_cwd_same.
Qed.

Lemma cd_up_pops_one_witness :
  let k := Samples.after (Samples.browser Samples.mainNodes []) ["attach"] in
  cwd (state k) = ["1"] ∧ handleCd [".."] k = (Ok Nothing, k).
Proof.
  intros k. split; [reflexivity|].
  rewrite (cd_up_pops_one k []); [reflexivity | reflexivity | discriminate].
Defined.

Lemma removelast_snoc {A} (l : list A) x : removelast (l ++ [x]) = l.
Proof.
  induction l as [|y l IH]; [done|]. simpl.
  destruct (l ++ [x]) eqn:H; [by destruct l|]. by rewrite <- IH.
Qed.

(** X15: entering a listed directory by its name and then [cd ..] leads
    back to the kernel state one started from. *)
Theorem cd_into_and_back
    (k : Kernel) (name current : string) (v : VFSNode) :
  truthy (attachedTabId (state k)) = true →
  nodeMap k ≠ [] →
  pathPartsOf name = [name] →
  name ≠ ".." →
  last (cwd (state k)) = Some current →
  findChildByName current name (nodeMap k) = Some v →
  isDirectory v = true →
  let k1 := at_cwd k (cwd (state k) ++ [axNodeId v],
                      cwdNames (state k) ++ [vfs_name v]) in
  handleCd [name] k = (Ok Nothing, k1)
  ∧ handleCd [".."] k1 = (Ok Nothing, k).
Proof.
  intros Ht Hm Hparts Hup Hlast Hfind Hdir k1.
  assert (Hroot : name ≠ "/") by (intros ->; by vm_compute in Hparts).
  split.
  - apply cd_follows_walk; [done..|]. rewrite Hparts.
    eapply walk_down; [done | done | done | done | apply walk_done].
  - subst k1. rewrite handleCd_up by done. unfold popped.
    cbn [at_cwd state set_cwd cwd cwdNames fst snd].
    rewrite length_app, !removelast_snoc. cbn [length].
    destruct (cwd (state k)) as [|c cs] eqn:Hc; [done|].
    replace (1 <? length (c :: cs) + 1)%nat with true
      by (symmetry; apply Nat.ltb_lt; simpl; lia).
    rewrite <- Hc. unfold at_cwd. cbn. by destruct k as [[] ? ?].
Qed.

Lemma cd_into_and_back_witness :
  let k := Samples.after (Samples.browser Samples.mainNodes []) ["attach"] in
  cwdNames (state (snd (handleCd ["main"] k))) = ["/"; "main"]
  ∧ handleCd [".."] (snd (handleCd ["main"] k)) = (Ok Nothing, k).
Proof.
  intros k.
  destruct (cd_into_and_back k "main" "1"
              {| axNodeId := "2"; vfs_backendDOMNodeId := None;
                 vfs_name := "main"; vfs_role := "main";
                 vfs_value := None; isDirectory := true |}
              eq_refl) as [H1 H2];
    [discriminate | reflexivity | discriminate | reflexivity
    | reflexivity | reflexivity |].
  rewrite H1. split; [reflexivity | exact H2].
Defined.

End Navigation.

Section Paths.
Import Mapper Shell Session Facts.

Lemma cdParts_names parts : ∀ k k',
  ".." ∉ parts →
  cdParts parts k = (Ok Nothing, k') →
  cwdNames (state k') = cwdNames (state k) ++ parts.
Proof.
  induction parts as [|part rest IH]; intros k k' Hup Hcd.
  - injection Hcd as <-. by rewrite app_nil_r.
  - apply not_elem_of_cons in Hup as [Hne Hup].
    cbn [cdParts] in Hcd. rewrite decide_False in Hcd by done.
    unfold bind at 1, getCurrentNodeId, bind at 1, get at 1 in Hcd.
    destruct (last (cwd (state k))) as [current|]; [|done].
    unfold ret at 1, bind at 1, get at 1 in Hcd.
    destruct (findChildByName current part (nodeMap k)) as [v|] eqn:Hf;
      [|done].
    destruct (isDirectory v); [|done]. cbn [negb] in Hcd.
    unfold bind at 1, pushCwd, set_state, modify in Hcd.
    apply IH in Hcd; [|done]. rewrite Hcd. cbn [state cwdNames set_cwd].
    apply find_elem in Hf as [_ Hn]. apply bool_decide_eq_true in Hn.
    by rewrite Hn, <- app_assoc.
Qed.

(** X16: after a multi-segment [cd] without [..] that succeeds, [pwd]
    answers the path it answered before, followed by the segments as they
    were typed, joined by [/]: a disambiguated entry is entered under its
    disambiguated name, which is then the name shown. *)
Theorem cd_then_pwd
    (k k' : Kernel) (target first : string) (more names : list string) :
  truthy (attachedTabId (state k)) = true →
  nodeMap k ≠ [] →
  target ≠ "/" →
  ".." ∉ pathPartsOf target →
  pathPartsOf target ≠ [] →
  cwdNames (state k) = first :: names →
  handleCd (target :: more) k = (Ok Nothing, k') →
  handlePwd k'
  = (Ok (PwdOutput ("/" +:+ JS.join "/" (names ++ pathPartsOf target))), k').
Proof.
  intros Ht Hm Hroot Hup Hne Hnames Hcd.
  assert (Hdots : target ≠ "..").
  { intros ->. apply Hup. vm_compute. left. }
  unfold handleCd, bind at 1 in Hcd. rewrite (ensureAttached_ok k Ht Hm) in Hcd.
  rewrite decide_False in Hcd by done. rewrite decide_False in Hcd by done.
  apply cdParts_names in Hcd; [|done].
  unfold handlePwd, bind, get. rewrite Hcd, Hnames.
  cbn [app length drop]. rewrite length_app.
  destruct (pathPartsOf target) as [|p ps]; [done|].
  replace (S (length names + length (p :: ps)) <=? 1)%nat with false; [done|].
  symmetry. apply Nat.leb_gt. simpl. lia.
Qed.

Lemma cd_then_pwd_witness :
  let b := Samples.browser Samples.mainNodes [] in
  let k := Samples.after b ["attach"] in
  fst (handleCd ["main/navigation_4"] k) = Ok Nothing
  ∧ handlePwd (snd (handleCd ["main/navigation_4"] k))
    = (Ok (PwdOutput "/main/navigation_4"), snd (handleCd ["main/navigation_4"] k)).
Proof.
  intros b k. split; [reflexivity|].
  apply (cd_then_pwd k _ "main/navigation_4" "/" [] []);
    [reflexivity | discriminate | discriminate | | discriminate
    | reflexivity | reflexivity].
  vm_compute. intros [H|[H|H]%elem_of_cons]%elem_of_cons;
    [discriminate | discriminate | by apply elem_of_nil in H].
Defined.

End Paths.

Section ReadOnly.
Import Mapper Shell Session Facts.

Lemma unchanged_ret {A} (a : A) : unchanged (ret a).
Proof. done. Qed.

Lemma unchanged_throw {A} e : unchanged (@throw A e).
Proof. done. Qed.

Lemma unchanged_get : unchanged get.
Proof. done. Qed.

Lemma unchanged_bind {A B} (m : M A) (f : A → M B) :
  unchanged m → (∀ a, unchanged (f a)) → unchanged (bind m f).
Proof.
  intros Hm Hf k. unfold bind. specialize (Hm k).
  destruct (m k) as [[a|e] k1]; simpl in Hm; subst; [apply Hf | done].
Qed.

Lemma unchanged_try_catch {A} (m : M A) (h : string → M A) :
  unchanged m → (∀ e, unchanged (h e)) → unchanged (try_catch m h).
Proof.
  intros Hm Hh k. unfold try_catch. specialize (Hm k).
  destruct (m k) as [[a|e] k1]; simpl in Hm; subst; [done | apply Hh].
Qed.

Lemma unchanged_send {T} (answer : string + T) : unchanged (CDP.send answer).
Proof. intros k. unfold CDP.send, bind, get. by repeat case_match. Qed.

Lemma unchanged_ensureAttached : unchanged ensureAttached.
Proof. intros k. unfold ensureAttached, bind, get. by case_match. Qed.

Lemma unchanged_getCurrentNodeId : unchanged getCurrentNodeId.
Proof. intros k. unfold getCurrentNodeId, bind, get. by case_match. Qed.

Ltac unchanged_handler :=
  repeat first
    [ apply unchanged_ensureAttached | apply unchanged_getCurrentNodeId
    | apply unchanged_send
    | apply unchanged_ret | apply unchanged_throw | apply unchanged_get
    | apply unchanged_bind; [|intros ?]
    | apply unchanged_try_catch; [|intros ?]
    | match goal with
      | |- unchanged (match ?x with _ => _ end) => destruct x
      end ].

Lemma unchanged_dispatch b cmd args :
  cmd ∉ mutators → unchanged (dispatch b cmd args).
Proof.
  intros Hcmd. unfold mutators in Hcmd.
  repeat (apply not_elem_of_cons in Hcmd as [? Hcmd]).
  unfold dispatch.
  repeat case_decide; try congruence.
  all: unfold handleLs, handlePwd, handleCat, handleClick, handleType,
         handleFocus, handleGrep, handleWhoami, handleEnv, handleTree,
         CDP.getTextContent, CDP.clickByBackendNodeId,
         CDP.clickByCoordinates, CDP.focusByBackendNodeId, CDP.typeText,
         CDP.getPageUrl.
  all: unchanged_handler.
Qed.

(** X17: only [attach], [detach], [cd], [export] and [refresh] assign to
    the kernel's variables: a command line with any other command word,
    known or not, and a line without a command word, leave the working
    directory, the node map, the environment and both attachment fields
    exactly as they were, whatever the browser answers. *)
Theorem other_commands_change_nothing
    (b : Browser) (raw : string) (k : Kernel) :
  (∀ word, kernelWord raw = Some word → word ∉ mutators) →
  snd (executeCommand b raw k) = k.
Proof.
  intros Hword. unfold executeCommand, kernelWord in *.
  destruct (JS.nonEmpty (JS.trim raw)); [|done]. cbn [negb].
  destruct (parseCommandLine (JS.trim raw)) as [|part0 args]; [done|].
  apply unchanged_try_catch; [|done].
  apply unchanged_dispatch. by apply Hword.
Qed.

Lemma other_commands_change_nothing_witness :
  let b := Samples.browser Samples.mainNodes [] in
  let k := Samples.after b ["attach"; "cd main"] in
  kernelWord "click navigation_4" = Some "click"
  ∧ snd (executeCommand b "click navigation_4" k) = k.
Proof.
  intros b k. split; [reflexivity|].
  apply other_commands_change_nothing.
  intros word [= <-]. unfold mutators. vm_compute.
  intros H. repeat (apply elem_of_cons in H as [H|H]; [discriminate|]).
  by apply elem_of_nil in H.
Defined.

End ReadOnly.

Section Attachment.
Import Mapper Shell Session Facts.

(** X18: [attach] on the tab that is already attached does to the
    kernel exactly what [refresh] does: the debugger is left alone, the
    tree is fetched again and the working directory goes back to the
    root; if the fetch fails both leave the kernel as it was. *)
Theorem attach_again_is_refresh
    (b : Browser) (k : Kernel) (tab : Tab) (id : nat) :
  tabs_query b = Some tab →
  tab_id tab = Some (S id) →
  attachedTabId (state k) = Some (S id) →
  cdp_attachedTabId k = Some (S id) →
  snd (handleAttach b k) = snd (handleRefresh b k).
Proof.
  intros Hq Hid Hs Hc. destruct k as [[c n a e] m t]. simpl in Hs, Hc. subst.
  unfold handleAttach, handleRefresh. rewrite Hq, Hid.
  unfold try_catch, bind, CDP.attach, CDP.getFullAXTree, CDP.send, bind, get.
  cbn. rewrite decide_True by done. cbn.
  destruct (cdp_getFullAXTree b None) as [err|nodes]; cbn; [done|].
  unfold resetToRoot, bind, get. cbn.
  by destruct (findRootNode (buildNodeMap nodes)).
Qed.

Lemma attach_again_is_refresh_witness :
  let b := Samples.browser Samples.mainNodes [] in
  let k := Samples.after b ["attach"; "cd main"] in
  cwd (state k) = ["1"; "2"]
  ∧ snd (handleAttach b k) = snd (handleRefresh b k).
Proof.
  intros b k. split; [reflexivity|].
  apply (attach_again_is_refresh b k Samples.tab 6); reflexivity.
Defined.

(** X19: from a kernel with nothing attached and nothing loaded, an
    [attach] that the browser grants loads the map built from the fetched
    nodes and records the tab, and a [detach] after it gives back the
    kernel one started from. *)
Theorem attach_then_detach
    (b : Browser) (k : Kernel) (tab : Tab) (id : nat)
    (nodes : list AXNode) :
  attachedTabId (state k) = None →
  cdp_attachedTabId k = None →
  nodeMap k = [] →
  cwd (state k) = [] →
  cwdNames (state k) = ["/"] →
  tabs_query b = Some tab →
  tab_id tab = Some (S id) →
  debugger_attach b (S id) = None →
  (∀ method, cdp_enable b method = None) →
  cdp_getFullAXTree b None = inr nodes →
  let k1 := snd (handleAttach b k) in
  fst (handleAttach b k)
  = Ok (Attached (S id) (default "unknown" (tab_title tab))
                 (default "unknown" (tab_url tab))
                 (length (buildNodeMap nodes)))
  ∧ attachedTabId (state k1) = Some (S id)
  ∧ cdp_attachedTabId k1 = Some (S id)
  ∧ nodeMap k1 = buildNodeMap nodes
  ∧ handleDetach k1 = (Ok Detached, k).
Proof.
  intros Hs Hc Hm Hcwd Hnames Hq Hid Hatt Hen Hnodes.
  destruct k as [[c n a e] m t]. simpl in Hs, Hc, Hm, Hcwd, Hnames. subst.
  unfold handleAttach. rewrite Hq, Hid.
  unfold try_catch, bind, CDP.attach, CDP.getFullAXTree, CDP.send, bind, get.
  cbn. rewrite Hatt. cbn. rewrite !Hen. cbn. rewrite Hnodes. cbn.
  rewrite decide_False by done.
  unfold resetToRoot, bind, get, set_state, modify, ret. cbn.
  destruct (findRootNode (buildNodeMap nodes)); cbn; done.
Qed.

Lemma attach_then_detach_witness :
  let b := Samples.browser Samples.mainNodes [] in
  fst (executeCommand b "attach" initial) = Ok (Attached 7 "Example" "unknown" 4)
  ∧ handleDetach (snd (handleAttach b initial)) = (Ok Detached, initial).
Proof.
  intros b. split; [reflexivity|].
  exact (proj2 (proj2 (proj2 (proj2
           (attach_then_detach b initial Samples.tab 6 Samples.mainNodes
              eq_refl eq_refl eq_refl eq_refl eq_refl eq_refl eq_refl
              eq_refl (λ _, eq_refl) eq_refl))))).
Defined.

(** X20: a [refresh] whose fetch succeeds replaces the node map by the
    one built from the fetched nodes.  If that map is not empty the
    working directory becomes its root, wherever it was; if it is empty
    (no node, or only ignored ones) the working directory keeps the ids
    of the old tree and every page command is refused from then on. *)
Theorem refresh_reloads
    (b : Browser) (k : Kernel) (nodes : list AXNode) :
  truthy (attachedTabId (state k)) = true →
  cdp_attachedTabId k ≠ None →
  cdp_getFullAXTree b None = inr nodes →
  let k1 := snd (handleRefresh b k) in
  fst (handleRefresh b k) = Ok (Refreshed (length (buildNodeMap nodes)))
  ∧ nodeMap k1 = buildNodeMap nodes
  ∧ match findRootNode (buildNodeMap nodes) with
    | Some root =>
        cwd (state k1) = [nodeId root] ∧ cwdNames (state k1) = ["/"]
    | None =>
        buildNodeMap nodes = [] ∧ state k1 = state k
        ∧ ensureAttached k1 = (Throw NOT_ATTACHED_TO_A_TAB, k1)
    end.
Proof.
  intros Ht Hc Hnodes.
  assert (H : handleRefresh b k
              = (Ok (Refreshed (length (buildNodeMap nodes))),
                 {| state := match findRootNode (buildNodeMap nodes) with
                             | Some root => set_cwd [nodeId root] ["/"] (state k)
                             | None => state k
                             end;
                    nodeMap := buildNodeMap nodes;
                    cdp_attachedTabId := cdp_attachedTabId k |})).
  { unfold handleRefresh, bind, get. rewrite Ht. cbn [negb].
    unfold CDP.getFullAXTree, CDP.send, bind, get.
    destruct (cdp_attachedTabId k) as [t|] eqn:Hcdp; [|done].
    rewrite Hnodes. unfold resetToRoot, bind, get, set_nodeMap, modify. cbn.
    rewrite Hcdp. by destruct (findRootNode (buildNodeMap nodes)). }
  rewrite H. cbn [fst snd nodeMap state].
  split; [done|]. split; [done|].
  destruct (findRootNode (buildNodeMap nodes)) as [root|] eqn:Hroot; [done|].
  apply findRootNode_None in Hroot.
  split; [done|]. split; [done|].
  unfold ensureAttached, bind, get. cbn [state nodeMap].
  rewrite Ht, Hroot. done.
Qed.

Lemma refresh_reloads_witness :
  let b := Samples.browser [ignoredNode "1"] [] in
  let k := Samples.after (Samples.browser Samples.mainNodes [])
                         ["attach"; "cd main"] in
  cwd (state (snd (handleRefresh b k))) = ["1"; "2"]
  ∧ nodeMap (snd (handleRefresh b k)) = []
  ∧ fst (executeCommand b "ls" (snd (handleRefresh b k)))
    = Ok (Error NOT_ATTACHED_TO_A_TAB).
Proof.
  intros b k.
  destruct (refresh_reloads b k [ignoredNode "1"])
    as (_ & Hm & _ & Hs & _); [reflexivity | discriminate | reflexivity |].
  rewrite Hs. split; [reflexivity|]. split; [exact Hm | reflexivity].
Defined.

(** X21: when [attach] is asked for another tab than the one the
    debugger is on and the browser refuses it, the answer is the error,
    the shell state and the node map stay as they were - the old tab is
    still recorded as attached - but the debugger client is left
    detached, so every later CDP request is refused by the client. *)
Theorem failed_switch_detaches_client
    (b : Browser) (k : Kernel) (tab : Tab) (id old : nat) (e : string) :
  tabs_query b = Some tab →
  tab_id tab = Some (S id) →
  cdp_attachedTabId k = Some old →
  old ≠ S id →
  debugger_attach b (S id) = Some e →
  let k1 := {| state := state k; nodeMap := nodeMap k;
               cdp_attachedTabId := None |} in
  handleAttach b k = (Ok (ErrorAttaching e), k1)
  ∧ ∀ T (answer : string + T),
      CDP.send answer k1
      = (Throw "Not attached to any tab. Run 'attach' first.", k1).
Proof.
  intros Hq Hid Hc Hne Hatt. split; [|done].
  unfold handleAttach. rewrite Hq, Hid.
  unfold try_catch, bind at 1, bind at 1, CDP.attach, bind at 1, get at 1.
  rewrite Hc. rewrite decide_False by congruence.
  unfold bind, CDP.detach, bind, get, set_cdp, modify. cbn.
  rewrite Hc. cbn. by rewrite Hatt.
Qed.

Lemma failed_switch_detaches_client_witness :
  let b := Samples.browser Samples.mainNodes [] in
  let b' := {| tabs_query := Some {| tab_id := Some 9; tab_title := None;
                                     tab_url := None |};
               debugger_attach := λ _, Some "Cannot access a chrome:// URL";
               cdp_enable := cdp_enable b;
               cdp_getFullAXTree := cdp_getFullAXTree b;
               cdp_getPartialAXTree := cdp_getPartialAXTree b;
               cdp_getFrameTree := cdp_getFrameTree b;
               cdp_click := cdp_click b;
               cdp_clickCoordinates := cdp_clickCoordinates b;
               cdp_focus := cdp_focus b;
               cdp_typeText := cdp_typeText b;
               cdp_textContent := cdp_textContent b;
               cdp_pageUrl := cdp_pageUrl b;
               cookies_getAll := cookies_getAll b |} in
  let k := Samples.after b ["attach"] in
  attachedTabId (state (snd (handleAttach b' k))) = Some 7
  ∧ cdp_attachedTabId (snd (handleAttach b' k)) = None
  ∧ fst (handleAttach b' k) = Ok (ErrorAttaching "Cannot access a chrome:// URL").
Proof.
  intros b b' k.
  destruct (failed_switch_detaches_client b' k
              {| tab_id := Some 9; tab_title := None; tab_url := None |}
              8 7 "Cannot access a chrome:// URL")
    as [H _]; [reflexivity | reflexivity | reflexivity | discriminate
              | reflexivity |].
  rewrite H. repeat split; reflexivity.
Defined.

End Attachment.

Section Resolution.
Import Mapper View Shell Session Facts.

Lemma map_get_elem m key node :
  map_get m key = Some node → (key, node) ∈ m.
Proof.
  induction m as [|[k0 n0] m IH]; simpl; [done|].
  case_decide as Hk; [intros [= ->]; subst; left | intros ?; right; auto].
Qed.

Lemma well_keyed_get m key node :
  well_keyed m → map_get m key = Some node →
  key = nodeId node ∧ ignored node = false.
Proof.
  intros [_ Hall] Hget%map_get_elem.
  by eapply Forall_forall in Hall; [|done].
Qed.

Lemma map_get_of_elem m key node :
  NoDup (fst <$> m) → (key, node) ∈ m → map_get m key = Some node.
Proof.
  induction m as [|[k0 n0] m IH]; [by intros _ ?%elem_of_nil|].
  rewrite fmap_cons. intros [Hnotin Hnd]%NoDup_cons Hin. cbn [map_get fst].
  apply elem_of_cons in Hin as [[= -> ->]|Hin].
  - by rewrite decide_True.
  - rewrite decide_False; [by apply IH|].
    intros ->. apply Hnotin. by apply (list_elem_of_fmap_2 fst) in Hin.
Qed.

Lemma root_resolves m root :
  well_keyed m → findRootNode m = Some root →
  is_Some (map_get m (nodeId root)).
Proof.
  intros [Hnd Hall] Hroot.
  assert (Hin : root ∈ snd <$> m).
  { unfold findRootNode in Hroot.
    destruct (List.find isRootRole (map snd m)) as [r|] eqn:Hf.
    - injection Hroot as <-. by apply find_elem in Hf as [? _].
    - destruct m as [|[k n] m]; [done|]. injection Hroot as <-. left. }
  apply list_elem_of_fmap in Hin as ([key node] & -> & Hin).
  pose proof Hin as Hk. eapply Forall_forall in Hk; [|done].
  destruct Hk as [Hk _]. cbn [fst snd] in *. subst key.
  exists node. by apply map_get_of_elem.
Qed.

Lemma listed_resolves m parentId v :
  well_keyed m → v ∈ getChildVFSNodes parentId m →
  is_Some (map_get m (axNodeId v)).
Proof.
  intros Hwk. unfold getChildVFSNodes.
  destruct (map_get m parentId) as [parent|]; [|by intros ?%elem_of_nil].
  destruct (childIds parent) as [ids|]; [|by intros ?%elem_of_nil].
  intros (c & e & _ & He & Hu)%listing_member.
  apply listedEntry_source in He as (key & node & Hk & _ & He).
  destruct (well_keyed_get m key node Hwk Hk) as [-> _].
  apply axNodeToVFSNode_Some in He as (_ & Hid & _).
  change (axNodeId v) with (axNodeId (unnamed v)). rewrite Hu.
  change (axNodeId (unnamed e)) with (axNodeId e). rewrite Hid. by exists node.
Qed.

Lemma preserves_ret {A} (a : A) : preserves (ret a).
Proof. by intros k. Qed.

Lemma preserves_throw {A} e : preserves (@throw A e).
Proof. by intros k. Qed.

Lemma preserves_get : preserves get.
Proof. by intros k. Qed.

Lemma preserves_bind {A B} (m : M A) (f : A → M B) :
  preserves m → (∀ a, preserves (f a)) → preserves (bind m f).
Proof.
  intros Hm Hf k Hk. unfold bind. specialize (Hm k Hk).
  destruct (m k) as [[a|e] k']; [by apply Hf | done].
Qed.

Lemma preserves_try_catch {A} (m : M A) (h : string → M A) :
  preserves m → (∀ e, preserves (h e)) → preserves (try_catch m h).
Proof.
  intros Hm Hh k Hk. unfold try_catch. specialize (Hm k Hk).
  destruct (m k) as [[a|e] k']; [done | by apply Hh].
Qed.

Lemma preserves_unchanged {A} (m : M A) : unchanged m → preserves m.
Proof. intros Hm k Hk. by rewrite Hm. Qed.

Lemma preserves_set_cdp t : preserves (set_cdp t).
Proof. by intros k. Qed.

Lemma preserves_set_state f :
  (∀ s, cwd (f s) = cwd s) → preserves (set_state f).
Proof.
  intros Hf k [Hwk Hcwd]. split; [done|]. cbn [set_state modify snd nodeMap state].
  by rewrite Hf.
Qed.

Lemma preserves_detach : preserves CDP.detach.
Proof. intros k Hk. unfold CDP.detach, bind, get. by repeat case_match. Qed.

Lemma preserves_resetToRoot : preserves resetToRoot.
Proof.
  intros k [Hwk Hcwd]. unfold resetToRoot, bind, get.
  destruct (findRootNode (nodeMap k)) as [root|] eqn:Hroot; [|done].
  split; [done|]. right. constructor; [|done]. by apply root_resolves.
Qed.

Lemma preserves_load nodes :
  preserves (set_nodeMap (buildNodeMap nodes) >> resetToRoot).
Proof.
  intros k _.
  assert (Hwk : well_keyed (buildNodeMap nodes)).
  { apply buildNodeMap_from. split; [apply NoDup_nil_2 | constructor]. }
  unfold resetToRoot, set_nodeMap, set_state, modify, get, bind, ret.
  cbn [nodeMap].
  destruct (findRootNode (buildNodeMap nodes)) as [root|] eqn:Hroot.
  - split; [done|]. right. constructor; [|done]. by apply root_resolves.
  - split; [done|]. left. by apply findRootNode_None.
Qed.

Lemma Forall_removelast {A} (P : A → Prop) l :
  Forall P l → Forall P (removelast l).
Proof.
  induction 1 as [|x l Hx Hl IH]; [done|].
  destruct l; [constructor|]. by constructor.
Qed.

Lemma preserves_popCwd : preserves popCwd.
Proof.
  intros k [Hwk Hcwd]. unfold popCwd, bind, get.
  destruct (1 <? length (cwd (state k)))%nat; [|done].
  split; [done|]. destruct Hcwd as [?|Hall]; [by left|].
  right. by apply Forall_removelast.
Qed.

Lemma preserves_cdParts parts : preserves (cdParts parts).
Proof.
  induction parts as [|part rest IH]; [apply preserves_ret|].
  cbn [cdParts]. case_decide.
  - apply preserves_bind; [apply preserves_popCwd | done].
  - intros k [Hwk Hcwd]. unfold bind at 1, getCurrentNodeId, bind at 1, get at 1.
    destruct (last (cwd (state k))) as [current|]; [|done].
    unfold ret at 1, bind at 1, get at 1.
    destruct (findChildByName current part (nodeMap k)) as [v|] eqn:Hf;
      [|done].
    destruct (isDirectory v); [|done]. cbn [negb].
    unfold bind at 1, pushCwd, set_state, modify. apply IH.
    split; [done|]. destruct Hcwd as [?|Hall]; [by left|]. right.
    cbn [state cwd set_cwd nodeMap]. apply Forall_app. split; [done|].
    constructor; [|done]. apply find_elem in Hf as [Hin _].
    by eapply listed_resolves.
Qed.

Ltac preserves_handler :=
  repeat first
    [ apply preserves_load | apply preserves_resetToRoot
    | apply preserves_popCwd | apply preserves_cdParts
    | apply preserves_detach | apply preserves_set_cdp
    | apply preserves_unchanged;
      first [ apply unchanged_ensureAttached | apply unchanged_send
            | apply unchanged_get ]
    | apply preserves_ret | apply preserves_throw
    | apply preserves_set_state; by intros ?
    | apply preserves_bind; [|intros ?]
    | apply preserves_try_catch; [|intros ?]
    | match goal with
      | |- preserves (match ?x with _ => _ end) => destruct x
      end ].

Lemma preserves_handleAttach b : preserves (handleAttach b).
Proof.
  unfold handleAttach, CDP.getFullAXTree, CDP.attach. preserves_handler.
Qed.

Lemma preserves_handleRefresh b : preserves (handleRefresh b).
Proof. unfold handleRefresh, CDP.getFullAXTree. preserves_handler. Qed.

Lemma preserves_handleDetach : preserves handleDetach.
Proof.
  intros k Hk. unfold handleDetach, bind at 1, get.
  destruct (negb (truthy (attachedTabId (state k)))); [done|].
  unfold CDP.detach, bind, get, set_cdp, set_state, set_nodeMap, modify, ret.
  destruct (cdp_attachedTabId k); cbn;
    (split; [split; [apply NoDup_nil_2 | constructor] | by left]).
Qed.

Lemma preserves_handleCd args : preserves (handleCd args).
Proof. unfold handleCd. preserves_handler. Qed.

Lemma preserves_handleExport args : preserves (handleExport args).
Proof. unfold handleExport. preserves_handler. Qed.

Lemma preserves_dispatch b cmd args : preserves (dispatch b cmd args).
Proof.
  destruct (decide (cmd ∈ mutators)) as [Hin|Hout].
  - unfold mutators in Hin.
    repeat (apply elem_of_cons in Hin as [->|Hin]);
      [..|by apply elem_of_nil in Hin].
    + apply preserves_handleAttach.
    + apply preserves_handleDetach.
    + apply preserves_handleCd.
    + apply preserves_handleExport.
    + apply preserves_handleRefresh.
  - by apply preserves_unchanged, unchanged_dispatch.
Qed.

Lemma preserves_executeCommand b raw : preserves (executeCommand b raw).
Proof.
  unfold executeCommand.
  destruct (negb (JS.nonEmpty (JS.trim raw))); [apply preserves_ret|].
  destruct (parseCommandLine (JS.trim raw)); [apply preserves_throw|].
  apply preserves_try_catch; [apply preserves_dispatch|].
  intros e. apply preserves_ret.
Qed.

Lemma reachable_resolved k : reachable k → resolved k ∧ kernel_ok k.
Proof.
  induction 1 as [|b raw k _ [IH1 IH2]].
  - split; [|split; [by left | done]].
    split; [split; [apply NoDup_nil_2 | constructor] | by left].
  - split; [by apply preserves_executeCommand
           | by apply keeps_executeCommand].
Qed.

(** X22: in every state of a session in which a tree is loaded, every
    id on the working directory is a key of the node map - through
    attach, refresh, cd, flattened entries and failed commands alike - so
    [resolveNodeFromCwd] finds a node, which is not ignored, and
    [getCurrentNodeId] never throws. *)
Theorem cwd_always_resolves (k : Kernel) :
  reachable k →
  nodeMap k ≠ [] →
  Forall (λ id, is_Some (map_get (nodeMap k) id)) (cwd (state k))
  ∧ (∃ node, resolveNodeFromCwd (cwd (state k)) (nodeMap k) = Some node
             ∧ ignored node = false)
  ∧ ∃ id, getCurrentNodeId k = (Ok id, k).
Proof.
  intros [[Hwk Hcwd] [_ Hne]]%reachable_resolved Hm.
  destruct Hcwd as [?|Hall]; [done|]. specialize (Hne Hm).
  split; [done|].
  destruct (last (cwd (state k))) as [id|] eqn:Hlast.
  2:{ apply last_None in Hlast. done. }
  assert (Hid : is_Some (map_get (nodeMap k) id)).
  { eapply Forall_forall in Hall; [done|]. by apply last_Some_elem_of. }
  destruct Hid as [node Hnode]. split.
  - exists node. unfold resolveNodeFromCwd. rewrite Hlast.
    split; [done|]. by destruct (well_keyed_get _ _ _ Hwk Hnode).
  - exists id. unfold getCurrentNodeId, bind, get. by rewrite Hlast.
Qed.

Lemma cwd_always_resolves_witness :
  let k := Samples.after (Samples.browser Samples.mainNodes [])
                         ["attach"; "cd main/navigation_4"; "cd .."] in
  cwd (state k) = ["1"; "2"]
  ∧ ∃ id, getCurrentNodeId k = (Ok id, k).
Proof.
  intros k. split; [reflexivity|].
  destruct (cwd_always_resolves k) as (_ & _ & H);
    [apply session_reachable | discriminate | exact H].
Defined.

End Resolution.

Section Trees.
Import Mapper Shell Facts.

Lemma buildTreeLines_lines m d : ∀ parentId prefix line,
  line ∈ buildTreeLines m d parentId prefix →
  prefix `prefix_of` line_prefix line
  ∧ length (line_prefix line) < length prefix + d
  ∧ ∃ parent, line_entry line ∈ getChildVFSNodes parent m.
Proof.
  induction d as [|d IH]; intros parentId prefix line;
    [by intros ?%elem_of_nil|].
  cbn [buildTreeLines]. cbv zeta.
  intros (l & Hline & Hl)%list_elem_of_join.
  apply elem_of_lookup_imap in Hl as (i & child & -> & Hchild).
  apply elem_of_cons in Hline as [->|Hline].
  - cbn [line_prefix line_entry]. split; [done|]. split; [lia|].
    exists parentId. by eapply list_elem_of_lookup_2.
  - destruct (isDirectory child); [|by apply elem_of_nil in Hline].
    apply IH in Hline as (Hpre & Hlen & Hin).
    rewrite length_app in Hlen. cbn [length] in Hlen.
    split; [|split; [lia | done]].
    etrans; [|exact Hpre]. by apply prefix_app_r.
Qed.

(** X23: [tree] stops at its depth: a line of [buildTreeLines] called
    with depth budget [d] lies fewer than [d] levels below the start, so
    a budget of zero gives no line at all; and every entry shown is an
    entry of the listing of some node. *)
Theorem tree_lines_within_depth (m : NodeMap) (d : nat) (parentId : string)
    (line : TreeLine) :
  line ∈ buildTreeLines m d parentId [] →
  length (line_prefix line) < d
  ∧ ∃ parent, line_entry line ∈ getChildVFSNodes parent m.
Proof.
  intros (_ & Hlen & Hin)%buildTreeLines_lines. by split.
Qed.

Lemma tree_lines_within_depth_witness :
  let m := buildNodeMap Samples.mainNodes in
  let line := {| line_prefix := [false]; line_isLast := true;
                 line_entry := {| axNodeId := "4";
                                  vfs_backendDOMNodeId := None;
                                  vfs_name := "navigation_4";
                                  vfs_role := "navigation";
                                  vfs_value := None;
                                  isDirectory := true |} |} in
  line ∈ buildTreeLines m 2 "1" []
  ∧ length (line_prefix line) < 2
  ∧ ∃ parent, line_entry line ∈ getChildVFSNodes parent m.
Proof.
  intros m line.
  assert (Hin : line ∈ buildTreeLines m 2 "1" []).
  { vm_compute. apply list_elem_of_further, list_elem_of_here. }
  split; [exact Hin|]. exact (tree_lines_within_depth m 2 "1" line Hin).
Defined.

(** X24: [tree 1] shows what [ls] shows: with a depth budget of one the
    lines of [buildTreeLines] carry exactly the entries of
    [getChildVFSNodes], in the same order, and only the last is marked
    as last. *)
Theorem tree_depth_one_is_listing (m : NodeMap) (parentId : string)
    (prefix : list bool) :
  let lines := buildTreeLines m 1 parentId prefix in
  line_entry <$> lines = getChildVFSNodes parentId m
  ∧ ∀ i line, lines !! i = Some line →
      line_prefix line = prefix
      ∧ line_isLast line = bool_decide (i = length lines - 1).
Proof.
  cbv zeta. set (children := getChildVFSNodes parentId m).
  set (f := λ (i : nat) (child : VFSNode),
         {| line_prefix := prefix;
            line_isLast := bool_decide (i = length children - 1);
            line_entry := child |}).
  assert (Heq : buildTreeLines m 1 parentId prefix = imap f children).
  { cbn [buildTreeLines]. cbv zeta. fold children.
    rewrite (imap_ext _ (λ i child, [f i child])).
    - generalize f. clear. induction children as [|c l IH]; intros f;
        [done|].
      rewrite !imap_cons. cbn [mjoin list_join app]. f_equal. apply IH.
    - intros i child _. by destruct (isDirectory child). }
  rewrite Heq. split.
  - rewrite fmap_imap. rewrite (imap_ext _ (λ _ child, child)); [|done].
    clear. induction children as [|c l IH]; [done|].
    rewrite imap_cons. f_equal. exact IH.
  - intros i line. rewrite list_lookup_imap, length_imap.
    destruct (children !! i) as [child|]; [|done].
    by intros [= <-].
Qed.

End Trees.

Section Tiers.
Import Shell Facts.

Lemma parseGo_head_parts input : ∀ parts current inQuote,
  parts ≠ [] → head (parseGo parts current inQuote input) = head parts.
Proof.
  induction input as [|char rest IH]; intros parts current inQuote Hparts.
  - simpl. destruct current; [done|]. by destruct parts.
  - cbn [parseGo]. destruct inQuote as [q|].
    + case_decide; by apply IH.
    + repeat case_match; try by apply IH.
      all: rewrite IH; [by destruct parts | by destruct parts].
Qed.

Lemma blank_is_space c : blankChar c = true → JS.isSpace c = true.
Proof. destruct c as [[] [] [] [] [] [] [] []]; by vm_compute. Qed.

Lemma isSpace_lower c : JS.isSpace (JS.lowerChar c) = JS.isSpace c.
Proof. destruct c as [[] [] [] [] [] [] [] []]; by vm_compute. Qed.

Lemma parseGo_head_free input : ∀ current,
  Forall (λ c, quoteChar c = false) input →
  rev current ++ untilBlank input ≠ [] →
  head (parseGo [] current None input)
  = Some (String.string_of_list_ascii (rev current ++ untilBlank input)).
Proof.
  induction input as [|char rest IH]; intros current Hfree Hne.
  - cbn [parseGo untilBlank] in *. rewrite app_nil_r in *.
    destruct current as [|c cur]; [done|]. done.
  - apply Forall_cons in Hfree as [Hq Hfree].
    cbn [parseGo untilBlank] in *. unfold quoteChar in Hq. rewrite Hq.
    fold (blankChar char). destruct (blankChar char).
    + rewrite app_nil_r in *.
      destruct current as [|c cur]; [done|].
      by rewrite parseGo_head_parts.
    + rewrite IH; [|done|].
      * cbn [rev]. by rewrite <- app_assoc.
      * cbn [rev]. by rewrite <- app_assoc.
Qed.

Lemma dropSpaces_head l :
  match JS.dropSpaces l with
  | c :: _ => JS.isSpace c = false
  | [] => True
  end.
Proof.
  induction l as [|c l IH]; simpl; [done|].
  destruct (JS.isSpace c) eqn:Hc; [done|]. done.
Qed.

Lemma trimChars_head l :
  match JS.trimChars l with
  | c :: _ => JS.isSpace c = false
  | [] => True
  end.
Proof.
  unfold JS.trimChars. pose proof (dropSpaces_head l) as Hhead.
  destruct (dropSpaces_suffix (rev (JS.dropSpaces l))) as [pre Hpre].
  apply (f_equal (@rev ascii)) in Hpre.
  rewrite rev_involutive, rev_app_distr in Hpre.
  destruct (rev (JS.dropSpaces (rev (JS.dropSpaces l)))) as [|c r]; [done|].
  rewrite Hpre in Hhead. done.
Qed.

Lemma untilSpace_untilBlank l :
  Forall (λ c, JS.isSpace c = false) (untilBlank l) →
  MCP.untilSpace l = untilBlank l.
Proof.
  induction l as [|c l IH]; [done|]. cbn [untilBlank MCP.untilSpace].
  destruct (blankChar c) eqn:Hb.
  - by rewrite blank_is_space.
  - intros [Hc Hl]%Forall_cons. rewrite Hc. f_equal. by apply IH.
Qed.

(** X25: on a line without quote characters the MCP server's tier check
    reads the same command word as the kernel: if the kernel dispatches
    on a word [w] free of white space (as every command name is), the
    tier is decided on that very [w]. *)
Theorem tier_follows_kernel_word (raw w : string) :
  Forall (λ c, quoteChar c = false) (String.list_ascii_of_string raw) →
  kernelWord raw = Some w →
  Forall (λ c, JS.isSpace c = false) (String.list_ascii_of_string w) →
  MCP.commandWord raw = w
  ∧ MCP.getCommandTier raw
    = if has MCP.WRITE_COMMANDS w then MCP.Write
      else if has MCP.SENSITIVE_COMMANDS w then MCP.Sensitive
      else MCP.Read.
Proof.
  intros Hfree Hw Hns.
  assert (Hcmd : MCP.commandWord raw = w);
    [|split; [done|]; unfold MCP.getCommandTier; cbv zeta; by rewrite Hcmd].
  unfold kernelWord, parseCommandLine, JS.trim in Hw.
  rewrite chars_of_chars in Hw. unfold MCP.commandWord.
  set (t := JS.trimChars (String.list_ascii_of_string raw)) in *.
  assert (Ht : Forall (λ c, quoteChar c = false) t)
    by by apply Forall_trimChars.
  pose proof (trimChars_head (String.list_ascii_of_string raw)) as Hhead.
  fold t in Hhead.
  destruct (decide (untilBlank t = [])) as [Hub|Hub].
  { destruct t as [|c t']; [done|]. cbn [untilBlank] in Hub.
    destruct (blankChar c) eqn:Hb; [|done].
    apply blank_is_space in Hb. congruence. }
  rewrite (parseGo_head_free t []) in Hw by done.
  cbn [rev app fmap option_fmap option_map] in Hw.
  assert (Hlow : JS.toLowerCase (String.string_of_list_ascii (untilBlank t))
                 = w) by congruence.
  rewrite untilSpace_untilBlank; [done|].
  unfold JS.toLowerCase in Hlow. rewrite chars_of_chars in Hlow.
  rewrite <- Hlow, chars_of_chars in Hns.
  apply Forall_fmap in Hns. eapply Forall_impl; [exact Hns|].
  intros c. cbn. by rewrite isSpace_lower.
Qed.

Lemma tier_follows_kernel_word_witness :
  MCP.commandWord "  Click   submit_btn " = "click"
  ∧ MCP.getCommandTier "  Click   submit_btn " = MCP.Write.
Proof.
  apply (tier_follows_kernel_word "  Click   submit_btn " "click").
  - repeat constructor.
  - reflexivity.
  - repeat constructor.
Defined.

Lemma parseGo_quoted q word : ∀ parts current rest,
  Forall (λ c, c ≠ q) word →
  parseGo parts current (Some q) (word ++ rest)
  = parseGo parts (rev word ++ current) (Some q) rest.
Proof.
  induction word as [|c word IH]; intros parts current rest Hw; [done|].
  apply Forall_cons in Hw as [Hc Hw].
  cbn [app parseGo]. rewrite decide_False by done. rewrite IH by done.
  cbn [rev]. by rewrite <- app_assoc.
Qed.

Lemma rev_chars_nonEmpty (w : string) :
  w ≠ "" → ∃ c r, rev (String.list_ascii_of_string w) = c :: r
                   ∧ c ∈ String.list_ascii_of_string w.
Proof.
  intros Hw. destruct (rev (String.list_ascii_of_string w)) as [|c r] eqn:Hr.
  - apply (f_equal length) in Hr. rewrite length_rev in Hr.
    destruct w; [done | discriminate].
  - exists c, r. split; [done|]. apply list_elem_of_In, in_rev. rewrite Hr. by left.
Qed.

(** X26: a quoted command word passes the MCP server's tier check as a
    read whatever the flags, since the check reads the word with its
    quote, while the kernel strips the quotes and dispatches on the word
    inside. *)
Theorem quoted_word_escapes_tier (flags : MCP.Flags) (b : Browser)
    (w x : string) :
  plainWord w → plainWord x →
  let line := "'" +:+ w +:+ "' " +:+ x in
  MCP.getCommandTier line = MCP.Read
  ∧ MCP.isCommandAllowed flags line = true
  ∧ executeCommand b line
    = try_catch (dispatch b (JS.toLowerCase w) [x])
                (λ message, ret (Error message)).
Proof.
  intros [Hwne Hw] [Hxne Hx]. cbv zeta.
  set (line := "'" +:+ w +:+ "' " +:+ x).
  assert (Hchars : String.list_ascii_of_string line
                   = "'"%char :: String.list_ascii_of_string w
                     ++ "'"%char :: " "%char
                     :: String.list_ascii_of_string x).
  { unfold line. by rewrite !chars_app. }
  assert (Htrim : JS.trimChars (String.list_ascii_of_string line)
                  = String.list_ascii_of_string line).
  { unfold JS.trimChars. rewrite Hchars. cbn [JS.dropSpaces].
    replace (JS.isSpace "'") with false by (by vm_compute).
    rewrite <- (rev_involutive (_ :: _)) at 2. f_equal.
    rewrite (app_comm_cons _ _ "'"%char),
      (app_assoc _ ["'"%char; " "%char] (String.list_ascii_of_string x)),
      rev_app_distr.
    destruct (rev_chars_nonEmpty x Hxne) as (c & r & -> & Hc).
    cbn [app JS.dropSpaces]. eapply Forall_forall in Hx; [|exact Hc].
    destruct (plain_cases c Hx) as (_ & _ & ->). done. }
  assert (Htier : MCP.getCommandTier line = MCP.Read).
  { unfold MCP.getCommandTier, MCP.commandWord. rewrite Htrim, Hchars.
    cbn [MCP.untilSpace]. replace (JS.isSpace "'") with false
      by (by vm_compute).
    cbn [String.string_of_list_ascii]. unfold JS.toLowerCase.
    cbn [String.list_ascii_of_string map String.string_of_list_ascii].
    replace (JS.lowerChar "'") with "'"%char by (by vm_compute).
    cbv zeta. unfold has, MCP.WRITE_COMMANDS, MCP.SENSITIVE_COMMANDS.
    rewrite !bool_decide_eq_false_2; [done|..];
      repeat (apply not_elem_of_cons; split; [discriminate|]);
      apply not_elem_of_nil. }
  split; [done|]. split; [unfold MCP.isCommandAllowed; by rewrite Htier|].
  unfold executeCommand, JS.trim. cbv zeta. rewrite Htrim.
  rewrite String.string_of_list_ascii_of_string.
  replace (JS.nonEmpty line) with true by done. cbn [negb].
  assert (Hparse : parseCommandLine line = [w; x]); [|by rewrite Hparse].
  unfold parseCommandLine. rewrite Hchars. cbn [parseGo].
  replace ((JS.code "'" =? 34)%nat || bool_decide ("'"%char = "'"%char))
    with true by (by vm_compute).
  rewrite parseGo_quoted.
  2:{ eapply Forall_impl; [exact Hw|]. intros c Hc ->. by vm_compute in Hc. }
  cbn [parseGo]. rewrite decide_True by done. cbn [parseGo].
  replace ((JS.code " " =? 34)%nat || bool_decide (" "%char = "'"%char))
    with false by (by vm_compute).
  replace (bool_decide (" "%char = " "%char)
           || bool_decide (" "%char = "009"%char))
    with true by (by vm_compute).
  rewrite app_nil_r.
  destruct (rev_chars_nonEmpty w Hwne) as (c & r & Hr & _).
  rewrite Hr. rewrite <- Hr, rev_involutive,
    String.string_of_list_ascii_of_string.
  rewrite <- (app_nil_r (String.list_ascii_of_string x)).
  rewrite parseGo_plain by done. cbn [parseGo]. rewrite app_nil_r.
  destruct (rev_chars_nonEmpty x Hxne) as (c' & r' & Hr' & _).
  rewrite Hr'. rewrite <- Hr', rev_involutive,
    String.string_of_list_ascii_of_string. done.
Qed.

Lemma quoted_word_escapes_tier_witness :
  let flags := {| MCP.ALLOW_WRITE := false; MCP.ALLOW_SENSITIVE := false |} in
  let b := Samples.browser Samples.mainNodes [] in
  MCP.isCommandAllowed flags "click submit_btn" = false
  ∧ MCP.isCommandAllowed flags "'click' submit_btn" = true
  ∧ executeCommand b "'click' submit_btn"
    = try_catch (dispatch b "click" ["submit_btn"])
                (λ message, ret (Error message)).
Proof.
  intros flags b. split; [reflexivity|].
  refine (proj2 (quoted_word_escapes_tier flags b "click" "submit_btn" _ _));
    (split; [discriminate | repeat constructor]).
Defined.

End Tiers.

Section Environment.
Import Shell Facts.

Lemma indexOfGo_first c l : ∀ i rest,
  c ∉ l → JS.indexOfGo c i (l ++ c :: rest) = Some (i + length l).
Proof.
  induction l as [|a l IH]; intros i rest Hc; cbn [app JS.indexOfGo length].
  - rewrite decide_True by done. f_equal. lia.
  - apply not_elem_of_cons in Hc as [Hne Hc].
    rewrite decide_False by done. rewrite IH by done. f_equal. lia.
Qed.

(** X27: [export] splits its arguments, joined by single spaces, at the
    first [=]: what stands before it, trimmed, is the key, and all that
    follows it, trimmed and with any further [=] kept, is the value.  The
    reply names both; the value is stored under the key, replacing what
    was there, unless the key is [__proto__], for which the environment
    stays as it was; nothing else of the kernel changes. *)
Theorem export_splits_at_first_equals (k : Kernel) (args : list string)
    (key value : string) :
  args ≠ [] →
  JS.join " " args = key +:+ "=" +:+ value →
  "="%char ∉ String.list_ascii_of_string key →
  handleExport args k
  = (Ok (Exported (JS.trim key) (JS.trim value)),
     {| state := set_env (if decide (JS.trim key = "__proto__")
                          then env (state k)
                          else <[JS.trim key := JS.trim value]>
                                 (env (state k)))
                         (state k);
        nodeMap := nodeMap k;
        cdp_attachedTabId := cdp_attachedTabId k |}).
Proof.
  intros Hargs Hjoin Hkey. unfold handleExport.
  destruct args as [|a args]; [done|]. cbv zeta. rewrite Hjoin.
  unfold JS.indexOf. rewrite !chars_app.
  change (String.list_ascii_of_string "=") with ["="%char].
  cbn [app]. rewrite indexOfGo_first by done. cbn [Nat.add].
  rewrite take_app_length.
  rewrite (app_assoc _ ["="%char]
             (String.list_ascii_of_string value)).
  rewrite drop_app_length' by (rewrite length_app; cbn [length]; lia).
  done.
Qed.

Lemma export_splits_at_first_equals_witness :
  let k' := snd (handleExport ["URL"; "="; "a=b"] Shell.initial) in
  env (state k') !! "URL" = Some "a=b"
  ∧ fst (handleExport ["URL"; "="; "a=b"] Shell.initial)
    = Ok (Exported "URL" "a=b")
  ∧ handleExport ["__proto__=x"] Shell.initial
    = (Ok (Exported "__proto__" "x"), Shell.initial).
Proof.
  split; [|split].
  - rewrite (export_splits_at_first_equals Shell.initial
               ["URL"; "="; "a=b"] "URL " " a=b").
    + cbn [snd state env set_env]. change (JS.trim "URL ") with "URL".
      rewrite decide_False by discriminate. apply lookup_insert_eq.
    + discriminate.
    + reflexivity.
    + intros H. repeat (apply elem_of_cons in H as [H|H]; [discriminate|]).
      by apply elem_of_nil in H.
  - rewrite (export_splits_at_first_equals Shell.initial
               ["URL"; "="; "a=b"] "URL " " a=b").
    + reflexivity.
    + discriminate.
    + reflexivity.
    + intros H. repeat (apply elem_of_cons in H as [H|H]; [discriminate|]).
      by apply elem_of_nil in H.
  - rewrite (export_splits_at_first_equals Shell.initial
               ["__proto__=x"] "__proto__" "x").
    + reflexivity.
    + discriminate.
    + reflexivity.
    + intros H. repeat (apply elem_of_cons in H as [H|H]; [discriminate|]).
      by apply elem_of_nil in H.
Defined.

End Environment.

Section Search.
Import Mapper Shell Facts.

(** X28: [grep] shows nothing that [ls] would not: when [grep] answers
    with matches, [ls] in the same state answers with a listing, the
    matches are entries of that listing in the listing's order, and each of
    them contains the pattern, in lower case, in its name, role or
    value. *)
Theorem grep_within_ls (k : Kernel) (pattern : string) (rest : list string)
    (matches : list VFSNode) :
  fst (handleGrep (pattern :: rest) k) = Ok (GrepOutput matches) →
  ∃ children,
    fst (handleLs [] k) = Ok (LsOutput false children)
    ∧ matches `sublist_of` children
    ∧ Forall (λ c, grepMatch (JS.toLowerCase pattern) c = true) matches.
Proof.
  unfold handleGrep, handleLs, ensureAttached, getCurrentNodeId, bind, get,
    ret, throw.
  destruct (negb (truthy (attachedTabId (state k)))
            || bool_decide (length (nodeMap k) = 0)); [done|].
  destruct (last (cwd (state k))) as [currentId|]; [|done]. cbv zeta.
  set (children := getChildVFSNodes currentId (nodeMap k)).
  destruct (filter _ children) as [|m ms] eqn:Hf; [done|].
  intros [= <-]. exists children. rewrite <- Hf.
  split; [|split].
  - destruct children as [|c children']; [done|]. done.
  - apply sublist_filter.
  - apply Forall_forall. by intros c [Hc _]%list_elem_of_filter.
Qed.

Lemma grep_within_ls_witness :
  let k := Samples.after (Samples.browser Samples.mainNodes []) ["attach"] in
  ∃ children,
    fst (handleLs [] k) = Ok (LsOutput false children)
    ∧ length children = 2.
Proof.
  intros k.
  destruct (grep_within_ls k "SUB" []
              (filter (λ c, grepMatch "sub" c = true)
                      (getChildVFSNodes "1" (nodeMap k))))
    as (children & Hls & _ & _); [reflexivity|].
  exists children. split; [exact Hls|].
  assert (Hc : children = getChildVFSNodes "1" (nodeMap k)).
  { assert (H : Ok (LsOutput false children)
                = Ok (LsOutput false (getChildVFSNodes "1" (nodeMap k))))
      by (rewrite <- Hls; reflexivity).
    by injection H. }
  rewrite Hc. reflexivity.
Defined.

End Search.
